(** * Schema-migrations table upgrader (server/services/store/sqlstore)

    A shallow embedding of [schema_table_migration.go]: the store's
    operations are written in a small state-and-error monad over an abstract
    SQL backend; every statement the Go code hands to [s.db] or to the query
    builder goes through one primitive that also records it in a log.  A
    reference relational backend ([Database]) gives the statements a
    meaning, so that properties about tables and rows can be stated.  The
    wrapper handlers of the web application's Dialog component are embedded
    as a small state machine. *)

From Stdlib Require Import ZArith.
From stdpp Require Import base option list strings gmap fin_maps pretty.

Local Open Scope string_scope.
Local Open Scope list_scope.

(** ** Migration descriptors (morph's [models.Migration]) *)

Inductive DirectionKind := Up | Down.

#[global] Instance DirectionKind_eq_dec : EqDecision DirectionKind.
Proof. solve_decision. Defined.

(** [Version] is a [uint32] in the source; it is only ever compared. *)
Record Migration := {
  Version : Z;
  Name : string;
  Direction : DirectionKind;
}.

(** ** The store handle

    [model.SqliteDBType], [model.MysqlDBType] and [model.PostgresDBType] are
    the three tags the code tests [s.dbType] against; any other tag takes the
    default arm of every conditional. *)
Inductive DBType := SqliteDBType | MysqlDBType | PostgresDBType | OtherDBType.

#[global] Instance DBType_eq_dec : EqDecision DBType.
Proof. solve_decision. Defined.

Record SQLStore := {
  dbType : DBType;
  tablePrefix : string;
  schemaName : string;
}.

(** ** Values, statements, errors *)

(** What a driver hands back for a column, or takes as a bound argument. *)
Inductive SqlValue :=
| VNull
| VInt (z : Z)
| VBool (b : bool)
| VText (s : string).

#[global] Instance SqlValue_eq_dec : EqDecision SqlValue.
Proof. solve_decision. Defined.

Record ColumnDef := {
  cname : string;
  ctype : string;
  cnotnull : bool;
}.

#[global] Instance ColumnDef_eq_dec : EqDecision ColumnDef.
Proof. solve_decision. Defined.

(** The two rename forms written in [useNewSchemaTable]. *)
Inductive RenameSyntax := RenameTableTo | AlterTableRenameTo.

#[global] Instance RenameSyntax_eq_dec : EqDecision RenameSyntax.
Proof. solve_decision. Defined.

(** The statements this file sends.  The first three come out of the query
    builder: the pairs of [SelectCountWhere] are the entries of the [sq.Eq]
    maps, whose right-hand sides the builder passes as bound arguments (they
    are compared as values, never parsed as SQL); the rows of [InsertValues]
    are the successive [Values(...)] calls.  The others are the raw strings
    given to [s.db.Exec] and [s.db.Query]. *)
Inductive Stmt :=
| SelectCountWhere (from : string) (eqs : list (string * string))
| SelectFrom (col from : string)
| InsertValues (into : string) (cols : list string) (values : list (list SqlValue))
| PragmaTableInfo (table : string)
| CreateTableIfNotExists (table : string) (cols : list ColumnDef) (pk : string)
| Rename (syntax : RenameSyntax) (old new : string)
| DropTableIfExists (table : string).

#[global] Instance Stmt_eq_dec : EqDecision Stmt.
Proof. solve_decision. Defined.

Definition is_rename (q : Stmt) : bool :=
  match q with Rename _ _ _ => true | _ => false end.

Definition is_drop (q : Stmt) : bool :=
  match q with DropTableIfExists _ => true | _ => false end.

(** Create, insert, rename and drop change the database; the rest read. *)
Definition is_write (q : Stmt) : bool :=
  match q with
  | SelectCountWhere _ _ | SelectFrom _ _ | PragmaTableInfo _ => false
  | _ => true
  end.

Definition dquote : string := String (Ascii.ascii_of_nat 34) EmptyString.

Definition column_text (c : ColumnDef) : string :=
  cname c +:+ " " +:+ ctype c +:+ (if cnotnull c then " NOT NULL" else "").

Fixpoint columns_text (cs : list ColumnDef) : string :=
  match cs with
  | [] => ""
  | c :: cs' => column_text c +:+ ", " +:+ columns_text cs'
  end.

(** The text of the raw statements, as the [fmt.Sprintf] calls build it. *)
Definition raw_text (q : Stmt) : option string :=
  match q with
  | PragmaTableInfo t =>
      Some ("PRAGMA table_info(" +:+ dquote +:+ t +:+ dquote +:+ ");")
  | CreateTableIfNotExists t cs pk =>
      Some ("CREATE TABLE IF NOT EXISTS " +:+ t +:+ " (" +:+ columns_text cs
            +:+ "PRIMARY KEY (" +:+ pk +:+ "))")
  | Rename RenameTableTo old new =>
      Some ("RENAME TABLE `" +:+ old +:+ "` TO `" +:+ new +:+ "`")
  | Rename AlterTableRenameTo old new =>
      Some ("ALTER TABLE " +:+ old +:+ " RENAME TO " +:+ new)
  | DropTableIfExists t => Some ("DROP TABLE IF EXISTS " +:+ t)
  | _ => None
  end.

Inductive error :=
| ErrNoRows
| ErrScan (msg : string)
| ErrBuilder (msg : string)
| ErrDriver (msg : string)
| ErrAssets (msg : string).

#[global] Instance error_eq_dec : EqDecision error.
Proof. solve_decision. Defined.

Definition Row := list SqlValue.

(** ** The backend interface and the store monad *)

(** [run q d] is what the query layer and the database answer to [q] in
    state [d]: an error or the result rows, and the next state. *)
Class Backend (DB : Type) := {
  run : Stmt → DB → (error + list Row) * DB;
}.

Inductive outcome (A : Type) :=
| Ok (a : A)
| Err (e : error)
| Panic.
Arguments Ok {A} a.
Arguments Err {A} e.
Arguments Panic {A}.

Record World (DB : Type) := mkWorld {
  db : DB;
  log : list Stmt;
}.
Arguments mkWorld {DB} db log.
Arguments db {DB} w.
Arguments log {DB} w.

Definition M (DB A : Type) : Type := World DB → outcome A * World DB.

Definition ret {DB A} (a : A) : M DB A := λ w, (Ok a, w).

Definition bind {DB A B} (m : M DB A) (k : A → M DB B) : M DB B :=
  λ w, match m w with
       | (Ok a, w') => k a w'
       | (Err e, w') => (Err e, w')
       | (Panic, w') => (Panic, w')
       end.

Definition fail {DB A} (e : error) : M DB A := λ w, (Err e, w).

Definition panic {DB A} : M DB A := λ w, (Panic, w).

Definition lift {DB A} (r : error + A) : M DB A :=
  match r with inl e => fail e | inr a => ret a end.

Declare Scope store_scope.
Delimit Scope store_scope with store.
Notation "x <- m ;; k" := (bind m (λ x, k))
  (at level 100, m at next level, right associativity) : store_scope.
Notation "m ;;; k" := (bind m (λ _, k))
  (at level 100, right associativity) : store_scope.

(** ** Scanning (database/sql's [convertAssign]) *)

Definition is_digit (c : Ascii.ascii) : bool :=
  let n := Ascii.N_of_ascii c in ((48 <=? n) && (n <=? 57))%N.

Fixpoint digits (s : string) (acc : Z) : option Z :=
  match s with
  | EmptyString => Some acc
  | String c r =>
      if is_digit c
      then digits r (10 * acc + (Z.of_N (Ascii.N_of_ascii c) - 48))%Z
      else None
  end.

(** [strconv.ParseUint(s, 10, _)] before the range check. *)
Definition parseUint (s : string) : option Z :=
  match s with
  | EmptyString => None
  | _ => digits s 0
  end.

(** [strconv.ParseInt(s, 10, _)] before the range check. *)
Definition parseInt (s : string) : option Z :=
  match s with
  | String c r =>
      if Ascii.eqb c (Ascii.ascii_of_nat 45) then Z.opp <$> parseUint r
      else if Ascii.eqb c (Ascii.ascii_of_nat 43) then parseUint r
      else parseUint s
  | EmptyString => None
  end.

Definition in_range (lo hi z : Z) : error + Z :=
  if ((lo <=? z) && (z <? hi))%Z then inr z
  else inl (ErrScan "value out of range").

(** Destination [*int] (64 bits). *)
Definition convertInt (v : SqlValue) : error + Z :=
  match v with
  | VNull => inl (ErrScan "converting NULL to int is unsupported")
  | VInt z => in_range (- 2 ^ 63) (2 ^ 63) z
  | VBool _ => inl (ErrScan "invalid syntax")
  | VText s =>
      match parseInt s with
      | Some z => in_range (- 2 ^ 63) (2 ^ 63) z
      | None => inl (ErrScan "invalid syntax")
      end
  end.

(** Destination [*uint32]. *)
Definition convertUint32 (v : SqlValue) : error + Z :=
  match v with
  | VNull => inl (ErrScan "converting NULL to uint32 is unsupported")
  | VInt z => in_range 0 (2 ^ 32) z
  | VBool _ => inl (ErrScan "invalid syntax")
  | VText s =>
      match parseUint s with
      | Some z => in_range 0 (2 ^ 32) z
      | None => inl (ErrScan "invalid syntax")
      end
  end.

(** Destination [**string]: NULL leaves the pointer nil, anything else is
    rendered as text. *)
Definition convertStringPtr (v : SqlValue) : option string :=
  match v with
  | VNull => None
  | VInt z => Some (pretty z)
  | VBool b => Some (if b then "true" else "false")
  | VText s => Some s
  end.

(** [QueryRow().Scan(&x)]: a failed query surfaces here, an empty result is
    [sql.ErrNoRows], only the first row is looked at and it must have exactly
    one column. *)
Definition scanOne (conv : SqlValue → error + Z) (res : error + list Row)
  : error + Z :=
  match res with
  | inl e => inl e
  | inr [] => inl ErrNoRows
  | inr ([v] :: _) => conv v
  | inr (_ :: _) => inl (ErrScan "wrong number of destination arguments")
  end.

(** [rows.Scan] into the six [*string] slots of one [PRAGMA] row. *)
Definition scanSix (r : Row) : error + list (option string) :=
  if decide (length r = 6) then inr (convertStringPtr <$> r)
  else inl (ErrScan "wrong number of destination arguments").

(** The [rows.Next()] loop: the first row that does not scan ends it. *)
Fixpoint scanAll (rows : list Row) : error + list (list (option string)) :=
  match rows with
  | [] => inr []
  | r :: rest =>
      match scanSix r with
      | inl e => inl e
      | inr row =>
          match scanAll rest with
          | inl e => inl e
          | inr data => inr (row :: data)
          end
      end
  end.

(** The loop over [data] at the end of [isSchemaMigrationNeededSQLite]:
    [None] is the nil-pointer dereference of [*row[1]]. *)
Fixpoint findDirty (data : list (list (option string))) : option bool :=
  match data with
  | [] => Some false
  | row :: rest =>
      if decide (2 ≤ length row)%nat then
        match row !! 1 with
        | Some (Some name) => if String.eqb name "dirty" then Some true else findDirty rest
        | _ => None
        end
      else findDirty rest
  end.

(** ** The functions of schema_table_migration.go *)

(** [filterMigrations]: the loop with its two [continue] guards. *)
Fixpoint filterMigrations (migrations : list Migration) (legacySchemaVersion : Z)
  : list Migration :=
  match migrations with
  | [] => []
  | migration :: rest =>
      if negb (bool_decide (Direction migration = Up))
      then filterMigrations rest legacySchemaVersion
      else if (legacySchemaVersion <? Version migration)%Z
      then filterMigrations rest legacySchemaVersion
      else migration :: filterMigrations rest legacySchemaVersion
  end.

Section Store.
Context {DB : Type} `{!Backend DB}.

(** Package-level names this file uses and declares elsewhere: the working
    name of the temp table, the embedded file system's directory listing,
    and morph's file-name parser. *)
Variable tempSchemaMigrationTableName : string.
Variable Assets_ReadDir : string → error + list string.
Variable NewMigration : string → error + Migration.

Local Open Scope store_scope.

(** One statement to the backend; every call below goes through here. *)
Definition send (q : Stmt) : M DB (list Row) :=
  λ w, let '(res, d) := run q (db w) in
       (match res with inl e => Err e | inr rows => Ok rows end,
        mkWorld d (log w ++ [q])).

(** [Exec]: the result is dropped. *)
Definition exec (q : Stmt) : M DB unit := _ <- send q ;; ret tt.

(** [QueryRow().Scan(&x)]. *)
Definition queryRowScan (q : Stmt) (conv : SqlValue → error + Z) : M DB Z :=
  λ w, let '(res, d) := run q (db w) in
       (match scanOne conv res with inl e => Err e | inr z => Ok z end,
        mkWorld d (log w ++ [q])).

Definition canonicalTable (s : SQLStore) : string :=
  tablePrefix s +:+ "schema_migrations".
Definition tempTable (s : SQLStore) : string :=
  tablePrefix s +:+ tempSchemaMigrationTableName.
Definition oldTempTable (s : SQLStore) : string :=
  tablePrefix s +:+ "schema_migrations_old_temp".

Fixpoint parseAll (names : list string) : error + list Migration :=
  match names with
  | [] => inr []
  | f :: rest =>
      match NewMigration f with
      | inl e => inl e
      | inr m =>
          match parseAll rest with
          | inl e => inl e
          | inr ms => inr (if bool_decide (Direction m = Up) then m :: ms else ms)
          end
      end
  end.

Definition getEmbeddedMigrations : error + list Migration :=
  match Assets_ReadDir "migrations" with
  | inl e => inl e
  | inr assetsList => parseAll assetsList
  end.

(** The [switch s.dbType] that adds the schema condition. *)
Definition schemaCondition (s : SQLStore) : list (string * string) :=
  match dbType s with
  | MysqlDBType => [("TABLE_SCHEMA", schemaName s)]
  | PostgresDBType => [("TABLE_SCHEMA", "current_schema()")]
  | _ => []
  end.

Definition columnCountQuery (s : SQLStore) : Stmt :=
  SelectCountWhere "information_schema.COLUMNS"
    ([("TABLE_NAME", canonicalTable s); ("COLUMN_NAME", "dirty")]
     ++ schemaCondition s).

Definition isSchemaMigrationNeededSQLite (s : SQLStore) : M DB bool :=
  rows <- send (PragmaTableInfo (canonicalTable s)) ;;
  data <- lift (scanAll rows) ;;
  match findDirty data with
  | Some nameColumnFound => ret nameColumnFound
  | None => panic
  end.

Definition isSchemaMigrationNeeded (s : SQLStore) : M DB bool :=
  if decide (dbType s = SqliteDBType) then isSchemaMigrationNeededSQLite s
  else
    count <- queryRowScan (columnCountQuery s) convertInt ;;
    ret (count =? 1)%Z.

Definition getLegacySchemaVersion (s : SQLStore) : M DB Z :=
  queryRowScan (SelectFrom "version" (canonicalTable s)) convertUint32.

Definition tempColumns : list ColumnDef :=
  [ {| cname := "Version"; ctype := "bigint"; cnotnull := true |};
    {| cname := "Name"; ctype := "varchar(64)"; cnotnull := true |} ].

Definition createTempSchemaTable (s : SQLStore) : M DB unit :=
  exec (CreateTableIfNotExists (tempTable s) tempColumns "Version").

Definition migrationRow (m : Migration) : Row := [VInt (Version m); VText (Name m)].

Definition populateTempSchemaTable (s : SQLStore) (migrations : list Migration)
  : M DB unit :=
  exec (InsertValues (tempTable s) ["Version"; "Name"] (migrationRow <$> migrations)).

Definition renameSyntax (s : SQLStore) : RenameSyntax :=
  if decide (dbType s = MysqlDBType) then RenameTableTo else AlterTableRenameTo.

Definition useNewSchemaTable (s : SQLStore) : M DB unit :=
  exec (Rename (renameSyntax s) (canonicalTable s) (oldTempTable s)) ;;;
  exec (Rename (renameSyntax s) (tempTable s) (canonicalTable s)).

Definition deleteOldSchemaMigrationTable (s : SQLStore) : M DB unit :=
  exec (DropTableIfExists (oldTempTable s)).

Definition EnsureSchemaMigrationFormat (s : SQLStore) : M DB unit :=
  migrationNeeded <- isSchemaMigrationNeeded s ;;
  if negb migrationNeeded then ret tt
  else
    legacySchemaVersion <- getLegacySchemaVersion s ;;
    migrations <- lift getEmbeddedMigrations ;;
    let filteredMigrations := filterMigrations migrations legacySchemaVersion in
    createTempSchemaTable s ;;;
    populateTempSchemaTable s filteredMigrations ;;;
    useNewSchemaTable s.

End Store.

(** ** A reference relational backend

    Tables live in schemas; an unqualified table name resolves in the
    connection's current schema.  Table and schema names are compared
    exactly, the column names of a statement without regard to case.  The
    backend answers the statements of this file: the column catalogue
    [information_schema.COLUMNS] (absent on SQLite), [PRAGMA table_info]
    (SQLite only), a one-column select, the multi-row insert (which the
    query builder refuses to render without rows), create-if-not-exists, the
    two rename forms ([RENAME TABLE] is MySQL syntax) and drop-if-exists. *)

Record Table := {
  columns : list ColumnDef;
  pkey : option string;
  rows : list Row;
}.

Record Database := {
  kind : DBType;
  current_schema : string;
  tables : gmap (string * string) Table;
}.

Definition colnames (T : Table) : list string := cname <$> columns T.

Definition set_tables (d : Database) (ts : gmap (string * string) Table) : Database :=
  {| kind := kind d; current_schema := current_schema d; tables := ts |}.

(** Where an unqualified name resolves. *)
Definition here (d : Database) (t : string) : string * string :=
  (current_schema d, t).

Definition lower_ascii (c : Ascii.ascii) : Ascii.ascii :=
  let n := Ascii.N_of_ascii c in
  if ((65 <=? n) && (n <=? 90))%N then Ascii.ascii_of_N (n + 32) else c.

Fixpoint lower (s : string) : string :=
  match s with
  | EmptyString => EmptyString
  | String c r => String (lower_ascii c) (lower r)
  end.

(** Column names in a statement are matched without regard to case. *)
Fixpoint index_of (c : string) (cs : list string) : option nat :=
  match cs with
  | [] => None
  | c' :: rest => if decide (lower c = lower c') then Some 0 else S <$> index_of c rest
  end.

(** A field of one [information_schema.COLUMNS] row. *)
Definition view_field (field : string) (sch tbl col : string) : option string :=
  if decide (field = "TABLE_SCHEMA") then Some sch
  else if decide (field = "TABLE_NAME") then Some tbl
  else if decide (field = "COLUMN_NAME") then Some col
  else None.

Definition known_field (e : string * string) : bool :=
  bool_decide (is_Some (view_field e.1 "" "" "")).

Definition view_row_matches (eqs : list (string * string)) (sch tbl col : string) : bool :=
  forallb (λ e, bool_decide (view_field e.1 sch tbl col = Some e.2)) eqs.

(** The rows one table contributes to a count over the catalogue. *)
Definition table_count (eqs : list (string * string)) (key : string * string)
    (T : Table) : nat :=
  length (filter (λ c, view_row_matches eqs key.1 key.2 c = true) (colnames T)).

Definition count_columns (eqs : list (string * string))
    (ts : gmap (string * string) Table) : nat :=
  map_fold (λ key T acc, table_count eqs key T + acc) 0 ts.

(** One [PRAGMA table_info] row: cid, name, type, notnull, dflt_value, pk. *)
Definition pragma_row (T : Table) (i : nat) (c : ColumnDef) : Row :=
  [VInt (Z.of_nat i); VText (cname c); VText (ctype c);
   VInt (if cnotnull c then 1 else 0); VNull;
   VInt (if decide (pkey T = Some (cname c)) then 1 else 0)].

Definition pragma_rows (T : Table) : list Row := imap (pragma_row T) (columns T).

(** The value an inserted row gives to column [c]; NULL when it names none. *)
Definition value_for (cols : list string) (r : Row) (c : string) : SqlValue :=
  match index_of c cols with
  | Some i => default VNull (r !! i)
  | None => VNull
  end.

Definition complete_row (T : Table) (cols : list string) (r : Row) : Row :=
  value_for cols r <$> colnames T.

Definition respects_notnull (T : Table) (r : Row) : bool :=
  forallb (λ p, negb (cnotnull p.1) || negb (bool_decide (p.2 = VNull)))
          (zip (columns T) r).

Definition key_values (T : Table) (rs : list Row) : list SqlValue :=
  match pkey T with
  | Some k =>
      match index_of k (colnames T) with
      | Some i => (λ r, default VNull (r !! i)) <$> rs
      | None => []
      end
  | None => []
  end.

Definition insert_rows (T : Table) (cols : list string) (values : list Row)
  : error + Table :=
  if negb (forallb (λ c, bool_decide (is_Some (index_of c (colnames T)))) cols)
  then inl (ErrDriver "unknown column")
  else if negb (forallb (λ r, bool_decide (length r = length cols)) values)
  then inl (ErrDriver "column count does not match value count")
  else
    let new := complete_row T cols <$> values in
    if negb (forallb (respects_notnull T) new)
    then inl (ErrDriver "null value in a NOT NULL column")
    else if decide (NoDup (key_values T (rows T ++ new)))
    then inr {| columns := columns T; pkey := pkey T; rows := rows T ++ new |}
    else inl (ErrDriver "duplicate entry for the primary key").

Definition ref_run (q : Stmt) (d : Database) : (error + list Row) * Database :=
  match q with
  | SelectCountWhere from eqs =>
      if decide (kind d = SqliteDBType)
      then (inl (ErrDriver "no such table: information_schema.COLUMNS"), d)
      else if negb (bool_decide (from = "information_schema.COLUMNS"))
      then (inl (ErrDriver "relation not modelled"), d)
      else if negb (forallb known_field eqs)
      then (inl (ErrDriver "unknown column"), d)
      else (inr [[VInt (Z.of_nat (count_columns eqs (tables d)))]], d)
  | SelectFrom col from =>
      match tables d !! here d from with
      | None => (inl (ErrDriver "no such table"), d)
      | Some T =>
          match index_of col (colnames T) with
          | None => (inl (ErrDriver "no such column"), d)
          | Some i => (inr ((λ r, [default VNull (r !! i)]) <$> rows T), d)
          end
      end
  | InsertValues into cols values =>
      match values with
      | [] => (inl (ErrBuilder "insert statements must have at least one set of values or select clause"), d)
      | _ =>
          match tables d !! here d into with
          | None => (inl (ErrDriver "no such table"), d)
          | Some T =>
              match insert_rows T cols values with
              | inl e => (inl e, d)
              | inr T' => (inr [], set_tables d (<[here d into := T']> (tables d)))
              end
          end
      end
  | PragmaTableInfo t =>
      if decide (kind d = SqliteDBType)
      then (inr (from_option pragma_rows [] (tables d !! here d t)), d)
      else (inl (ErrDriver "syntax error near PRAGMA"), d)
  | CreateTableIfNotExists t cols pk =>
      match tables d !! here d t with
      | Some _ => (inr [], d)
      | None =>
          (inr [], set_tables d
             (<[here d t := {| columns := cols; pkey := Some pk; rows := [] |}]> (tables d)))
      end
  | Rename syntax old new =>
      if bool_decide (syntax = RenameTableTo) && negb (bool_decide (kind d = MysqlDBType))
      then (inl (ErrDriver "syntax error near RENAME"), d)
      else
        match tables d !! here d old with
        | None => (inl (ErrDriver "no such table"), d)
        | Some T =>
            match tables d !! here d new with
            | Some _ => (inl (ErrDriver "table already exists"), d)
            | None =>
                (inr [], set_tables d (<[here d new := T]> (delete (here d old) (tables d))))
            end
        end
  | DropTableIfExists t =>
      (inr [], set_tables d (delete (here d t) (tables d)))
  end.

#[global] Instance Database_backend : Backend Database := {| run := ref_run |}.

(** The legacy bookkeeping table: one row, the current version and the
    dirty flag. *)
Definition legacyColumns : list ColumnDef :=
  [ {| cname := "version"; ctype := "bigint"; cnotnull := true |};
    {| cname := "dirty"; ctype := "boolean"; cnotnull := true |} ].

Definition legacyTable (V : Z) (dirty : bool) : Table :=
  {| columns := legacyColumns; pkey := Some "version"; rows := [[VInt V; VBool dirty]] |}.

(** The table the create step makes. *)
Definition freshTempTable : Table :=
  {| columns := tempColumns; pkey := Some "Version"; rows := [] |}.

Definition start {DB} (d : DB) : World DB := mkWorld d [].

(** ** Fixtures *)

Definition exampleName (v : Z) : string := "m" +:+ pretty v.

(** A catalogue file is named by its version and direction. *)
Definition exampleFiles (vs : list Z) : list string :=
  vs ≫= λ v, [pretty v +:+ ".down"; pretty v +:+ ".up"].

Definition exampleReadDir (files : list string) (dir : string) : error + list string :=
  if decide (dir = "migrations") then inr files else inl (ErrAssets "no such directory").

Definition exampleTable (vs : list Z) : list (string * Migration) :=
  vs ≫= λ v, [ (pretty v +:+ ".down", {| Version := v; Name := exampleName v; Direction := Down |});
               (pretty v +:+ ".up", {| Version := v; Name := exampleName v; Direction := Up |}) ].

Definition exampleNewMigration (vs : list Z) (f : string) : error + Migration :=
  match list_find (λ p, p.1 = f) (exampleTable vs) with
  | Some (_, (_, m)) => inr m
  | None => inl (ErrAssets "could not parse file")
  end.

Definition storeOf (t : DBType) : SQLStore :=
  {| dbType := t; tablePrefix := "fb_"; schemaName := "boards" |}.

Definition legacyDatabase (t : DBType) (schema : string) (V : Z) : Database :=
  {| kind := t; current_schema := schema;
     tables := {[ (schema, "fb_schema_migrations") := legacyTable V false ]} |}.

Definition exampleTempName : string := "temp_schema_migration".

Definition exampleEnsure (vs : list Z) (s : SQLStore) : M Database unit :=
  EnsureSchemaMigrationFormat exampleTempName (exampleReadDir (exampleFiles vs))
    (exampleNewMigration vs) s.

Definition upMigration (v : Z) : Migration :=
  {| Version := v; Name := exampleName v; Direction := Up |}.

Definition downMigration (v : Z) : Migration :=
  {| Version := v; Name := exampleName v; Direction := Down |}.

(** A new-shaped bookkeeping table under the canonical name. *)
Definition migratedDatabase (t : DBType) (schema : string) : Database :=
  {| kind := t; current_schema := schema;
     tables := {[ (schema, "fb_schema_migrations") :=
                    {| columns := columns freshTempTable; pkey := Some "Version";
                       rows := [[VInt 1; VText "m1"]] |} ]} |}.

(** A legacy database in which a temp table was left behind with a row. *)
Definition staleRowDatabase : Database :=
  {| kind := MysqlDBType; current_schema := "boards";
     tables := {[ ("boards", "fb_schema_migrations") := legacyTable 1 false;
                  ("boards", "fb_temp_schema_migration") :=
                    {| columns := columns freshTempTable; pkey := Some "Version";
                       rows := [[VInt 7; VText "stale"]] |} ]} |}.

(** A legacy database in which an empty table with a [dirty] column sits
    under the temp name. *)
Definition staleDirtyDatabase : Database :=
  {| kind := MysqlDBType; current_schema := "boards";
     tables := {[ ("boards", "fb_schema_migrations") := legacyTable 1 false;
                  ("boards", "fb_temp_schema_migration") :=
                    {| columns := columns freshTempTable
                                  ++ [ {| cname := "dirty"; ctype := "boolean"; cnotnull := false |} ];
                       pkey := Some "Version"; rows := [] |} ]} |}.

(** A driver that answers every statement with the same canned result. *)
Record Canned := { answer : error + list Row }.

#[global] Instance Canned_backend : Backend Canned := {| run := λ _ c, (answer c, c) |}.

(** ** Auxiliary notions for the statements below *)

(** [m] only ever appends to the log, and what it appends satisfies [P]. *)
Definition emits {DB A} (P : Stmt → Prop) (m : M DB A) : Prop :=
  ∀ w, ∃ l, log (m w).2 = log w ++ l ∧ Forall P l.

(** [n] cleanup calls in a row, stopping at the first error. *)
Fixpoint cleanups {DB} `{!Backend DB} (n : nat) (s : SQLStore) : M DB unit :=
  match n with
  | O => ret tt
  | S n' => bind (deleteOldSchemaMigrationTable s) (λ _, cleanups n' s)
  end.

(** The schema condition of the detector's metadata query, as a test on a
    schema name. *)
Definition schemaSelected (s : SQLStore) (sch : string) : Prop :=
  match dbType s with
  | MysqlDBType => sch = schemaName s
  | PostgresDBType => sch = "current_schema()"
  | _ => True
  end.

(** The one statement the detector sends. *)
Definition detectionQuery (s : SQLStore) : Stmt :=
  if decide (dbType s = SqliteDBType) then PragmaTableInfo (canonicalTable s)
  else columnCountQuery s.

(** The only table the detector's metadata query can count a [dirty] column
    of is the canonical table of the connection's current schema. *)
Definition detectorScoped (s : SQLStore) (d : Database) : Prop :=
  ∀ key T, tables d !! key = Some T → key.2 = canonicalTable s →
           schemaSelected s key.1 → "dirty" ∈ colnames T →
           key = here d (canonicalTable s).

(** The tables a statement names as the object of a change. *)
Definition targets (q : Stmt) : list string :=
  match q with
  | InsertValues t _ _ | CreateTableIfNotExists t _ _ | DropTableIfExists t => [t]
  | Rename _ old new => [old; new]
  | _ => []
  end.

(** [m] keeps the dialect and the current schema, and every table that is
    not one of [names] in the current schema. *)
Definition touchesOnly {A} (names : list string) (m : M Database A) : Prop :=
  ∀ w, kind (db (m w).2) = kind (db w)
       ∧ current_schema (db (m w).2) = current_schema (db w)
       ∧ ∀ key, (∀ n, n ∈ names → key ≠ here (db w) n) →
                tables (db (m w).2) !! key = tables (db w) !! key.

(** How many columns of a table, if there is one, are named [dirty]. *)
Definition dirtyCount (o : option Table) : nat :=
  from_option (λ T, length (filter (λ c, c = "dirty") (colnames T))) 0 o.

(** A legacy database that also holds a table of the application. *)
Definition sharedDatabase : Database :=
  {| kind := SqliteDBType; current_schema := "main";
     tables := {[ ("main", "fb_schema_migrations") := legacyTable 2 false;
                  ("main", "fb_blocks") :=
                    {| columns := [ {| cname := "id"; ctype := "varchar(36)"; cnotnull := true |} ];
                       pkey := Some "id"; rows := [[VText "b1"]] |} ]} |}.

(** ** The dialog component's wrapper handlers

    The handlers of the Dialog component that touch [props.onClose]: the
    [onMouseDown] and [onClick] of the [wrapper] element, the [esc] hot key,
    and the [onClick] of the close button, which is [props.onClose] itself
    (the button is rendered unless [hideCloseButton] is set).  An event is
    one run of one handler: [Click] is a run of the wrapper's [onClick], for
    a click on the wrapper or for one that bubbles up from inside it, so a
    click on the close button is [CloseButton] followed by [Click].
    [isBackdropClickedRef] is the [useRef(false)] cell; the calls of
    [props.onClose] and of [e.stopPropagation] are counted. *)

Inductive DialogEvent :=
| MouseDown (targetIsCurrentTarget : bool)
| Click
| EscKey
| CloseButton.

#[global] Instance DialogEvent_eq_dec : EqDecision DialogEvent.
Proof. solve_decision. Defined.

Record DialogState := {
  isBackdropClickedRef : bool;
  onCloseCalls : nat;
  stopPropagationCalls : nat;
}.

Definition dialogInit : DialogState :=
  {| isBackdropClickedRef := false; onCloseCalls := 0; stopPropagationCalls := 0 |}.

Definition onMouseDown (targetIsCurrentTarget : bool) (st : DialogState) : DialogState :=
  if targetIsCurrentTarget
  then {| isBackdropClickedRef := true; onCloseCalls := onCloseCalls st;
          stopPropagationCalls := stopPropagationCalls st |}
  else st.

Definition onClick (st : DialogState) : DialogState :=
  let st1 := {| isBackdropClickedRef := isBackdropClickedRef st;
                onCloseCalls := onCloseCalls st;
                stopPropagationCalls := S (stopPropagationCalls st) |} in
  if negb (isBackdropClickedRef st1) then st1
  else {| isBackdropClickedRef := false; onCloseCalls := S (onCloseCalls st1);
          stopPropagationCalls := stopPropagationCalls st1 |}.

Definition onEsc (st : DialogState) : DialogState :=
  {| isBackdropClickedRef := isBackdropClickedRef st; onCloseCalls := S (onCloseCalls st);
     stopPropagationCalls := stopPropagationCalls st |}.

Definition onCloseButton (st : DialogState) : DialogState :=
  {| isBackdropClickedRef := isBackdropClickedRef st; onCloseCalls := S (onCloseCalls st);
     stopPropagationCalls := stopPropagationCalls st |}.

Definition dialogStep (st : DialogState) (e : DialogEvent) : DialogState :=
  match e with
  | MouseDown t => onMouseDown t st
  | Click => onClick st
  | EscKey => onEsc st
  | CloseButton => onCloseButton st
  end.

(** What a click of the user on the close button runs. *)
Definition closeButtonClick : list DialogEvent := [CloseButton; Click].

Definition dialogRun (events : list DialogEvent) (st : DialogState) : DialogState :=
  fold_left dialogStep events st.

(** * Properties *)

(** ** The monad and the log *)

Section MonadFacts.
Context {DB : Type} `{!Backend DB}.

Lemma bind_ok {A B} (m : M DB A) (k : A → M DB B) w a w' :
  m w = (Ok a, w') → bind m k w = k a w'.
Proof. unfold bind. by intros ->. Qed.

Lemma bind_err {A B} (m : M DB A) (k : A → M DB B) w e w' :
  m w = (Err e, w') → bind m k w = (Err e, w').
Proof. unfold bind. by intros ->. Qed.

Lemma bind_ok_inv {A B} (m : M DB A) (k : A → M DB B) w b w2 :
  bind m k w = (Ok b, w2) → ∃ a w1, m w = (Ok a, w1) ∧ k a w1 = (Ok b, w2).
Proof. unfold bind. destruct (m w) as [[a|e|] w1]; naive_solver. Qed.

Lemma send_unfold q w :
  send q w = (match (run q (db w)).1 with inl e => Err e | inr rows => Ok rows end,
              mkWorld (run q (db w)).2 (log w ++ [q])).
Proof. unfold send. by destruct (run q (db w)). Qed.

Lemma exec_unfold q w :
  exec q w = (match (run q (db w)).1 with inl e => Err e | inr _ => Ok tt end,
              mkWorld (run q (db w)).2 (log w ++ [q])).
Proof. unfold exec, bind. rewrite send_unfold. by destruct (run q (db w)).1. Qed.

Lemma exec_ok_inv q w u w' :
  exec q w = (Ok u, w') →
  ∃ res d', run q (db w) = (inr res, d') ∧ w' = mkWorld d' (log w ++ [q]).
Proof.
  rewrite exec_unfold. destruct (run q (db w)) as [[e|res] d']; [done|].
  intros [= _ <-]. eauto.
Qed.

Lemma queryRowScan_unfold q conv w :
  queryRowScan q conv w =
    (match scanOne conv (run q (db w)).1 with inl e => Err e | inr z => Ok z end,
     mkWorld (run q (db w)).2 (log w ++ [q])).
Proof. unfold queryRowScan. by destruct (run q (db w)). Qed.

Lemma emits_ret {A} P (a : A) : emits P (ret (DB:=DB) a).
Proof. intros w. exists []. by rewrite app_nil_r. Qed.

Lemma emits_lift {A} P (r : error + A) : emits P (lift (DB:=DB) r).
Proof. intros w. exists []. destruct r; by rewrite app_nil_r. Qed.

Lemma emits_panic {A} P : emits P (panic (DB:=DB) (A:=A)).
Proof. intros w. exists []. by rewrite app_nil_r. Qed.

Lemma emits_bind {A B} P (m : M DB A) (k : A → M DB B) :
  emits P m → (∀ a, emits P (k a)) → emits P (bind m k).
Proof.
  intros Hm Hk w. unfold bind.
  destruct (Hm w) as (l & Hl & HP).
  destruct (m w) as [[a|e|] w1]; simpl in *; [|by eauto..].
  destruct (Hk a w1) as (l' & Hl' & HP').
  exists (l ++ l'). rewrite Hl', Hl, app_assoc.
  split; [done|by apply Forall_app].
Qed.

Lemma emits_send P q : P q → emits P (send q).
Proof. intros HP w. rewrite send_unfold. exists [q]. by repeat constructor. Qed.

Lemma emits_exec P q : P q → emits P (exec q).
Proof. intros HP. apply emits_bind; [by apply emits_send|intros; apply emits_ret]. Qed.

Lemma emits_queryRowScan P q conv : P q → emits P (queryRowScan q conv).
Proof. intros HP w. rewrite queryRowScan_unfold. exists [q]. by repeat constructor. Qed.

Variable temp : string.
Variable readDir : string → error + list string.
Variable newMigration : string → error + Migration.

Lemma emits_isSchemaMigrationNeeded P s :
  P (PragmaTableInfo (canonicalTable s)) → P (columnCountQuery s) →
  emits P (isSchemaMigrationNeeded s).
Proof.
  intros HP1 HP2. unfold isSchemaMigrationNeeded, isSchemaMigrationNeededSQLite.
  case_decide.
  - apply emits_bind; [by apply emits_send|intros rows].
    apply emits_bind; [apply emits_lift|intros data].
    destruct (findDirty data); [apply emits_ret|apply emits_panic].
  - apply emits_bind; [by apply emits_queryRowScan|intros; apply emits_ret].
Qed.

Lemma emits_useNewSchemaTable P s :
  (∀ syn a b, P (Rename syn a b)) → emits P (useNewSchemaTable temp s).
Proof. intros HP. apply emits_bind; [|intros _]; by apply emits_exec. Qed.

(** What [EnsureSchemaMigrationFormat] may send: the detection query, the
    version read, create, insert and the renames. *)
Lemma emits_Ensure P s :
  (∀ q, is_drop q = false → P q) →
  emits P (EnsureSchemaMigrationFormat temp readDir newMigration s).
Proof.
  intros HP. unfold EnsureSchemaMigrationFormat.
  apply emits_bind; [apply emits_isSchemaMigrationNeeded; by apply HP|].
  intros [|]; simpl; [|apply emits_ret].
  apply emits_bind; [apply emits_queryRowScan; by apply HP|intros V].
  apply emits_bind; [apply emits_lift|intros ms].
  apply emits_bind; [apply emits_exec; by apply HP|intros _].
  apply emits_bind; [apply emits_exec; by apply HP|intros _].
  apply emits_useNewSchemaTable. intros; by apply HP.
Qed.

(** The orchestrator, step by step: each step's error (or panic) is the
    result, with the world that step left. *)
Lemma Ensure_cascade s w0 :
  EnsureSchemaMigrationFormat temp readDir newMigration s w0 =
    match isSchemaMigrationNeeded s w0 with
    | (Ok true, w1) =>
        match getLegacySchemaVersion s w1 with
        | (Ok V, w2) =>
            match getEmbeddedMigrations readDir newMigration with
            | inr ms =>
                match createTempSchemaTable temp s w2 with
                | (Ok _, w3) =>
                    match populateTempSchemaTable temp s (filterMigrations ms V) w3 with
                    | (Ok _, w4) => useNewSchemaTable temp s w4
                    | (Err e, w4) => (Err e, w4)
                    | (Panic, w4) => (Panic, w4)
                    end
                | (Err e, w3) => (Err e, w3)
                | (Panic, w3) => (Panic, w3)
                end
            | inl e => (Err e, w2)
            end
        | (Err e, w2) => (Err e, w2)
        | (Panic, w2) => (Panic, w2)
        end
    | (Ok false, w1) => (Ok tt, w1)
    | (Err e, w1) => (Err e, w1)
    | (Panic, w1) => (Panic, w1)
    end.
Proof.
  unfold EnsureSchemaMigrationFormat, bind.
  destruct (isSchemaMigrationNeeded s w0) as [[[|]|e|] w1]; simpl; try done.
  destruct (getLegacySchemaVersion s w1) as [[V|e|] w2]; try done.
  destruct (getEmbeddedMigrations readDir newMigration) as [e|ms]; simpl; try done.
Qed.

End MonadFacts.

(** ** The filter *)

Lemma filterMigrations_filter ms V :
  filterMigrations ms V = filter (λ m, Direction m = Up ∧ (Version m ≤ V)%Z) ms.
Proof.
  induction ms as [|m ms IH]; [done|]. simpl.
  rewrite filter_cons. destruct (decide (Direction m = Up)) as [Hup|Hup].
  - rewrite (bool_decide_eq_true_2 _ Hup). simpl.
    destruct (Z.ltb_spec V (Version m)).
    + rewrite decide_False by lia. done.
    + rewrite decide_True by (split; [done|lia]). by rewrite IH.
  - rewrite (bool_decide_eq_false_2 _ Hup). simpl.
    rewrite decide_False by tauto. done.
Qed.

Lemma parseAll_up newMigration names ms :
  parseAll newMigration names = inr ms → Forall (λ m, Direction m = Up) ms.
Proof.
  revert ms. induction names as [|f names IH]; intros ms; simpl.
  - intros [= <-]. constructor.
  - destruct (newMigration f) as [e|m]; [done|].
    destruct (parseAll newMigration names) as [e|ms']; [done|].
    intros [= <-]. specialize (IH _ eq_refl).
    case_bool_decide; [by constructor|done].
Qed.

(** ** Counting over the column catalogue *)

Lemma count_columns_zero (eqs : list (string * string)) (ts : gmap (string * string) Table) :
  (∀ key T, ts !! key = Some T → table_count eqs key T = 0) →
  count_columns eqs ts = 0.
Proof.
  unfold count_columns.
  apply (map_fold_weak_ind
           (λ r (m : gmap (string * string) Table),
              (∀ key T, m !! key = Some T → table_count eqs key T = 0) → r = 0)).
  - done.
  - intros key T m r Hnone IH Hall.
    rewrite (Hall key T) by apply lookup_insert_eq. simpl.
    apply IH. intros key' T' Hl. apply Hall.
    rewrite lookup_insert_ne; [done|]. intros ->. congruence.
Qed.

(** ** The reference backend *)

Lemma ref_run_read q (d : Database) : is_write q = false → (run q d).2 = d.
Proof. destruct q; simpl; try done; intros _; repeat case_match; done. Qed.

Lemma table_count_zero s key T :
  key.2 ≠ canonicalTable s ∨ ¬ schemaSelected s key.1 ∨ "dirty" ∉ colnames T →
  table_count ([("TABLE_NAME", canonicalTable s); ("COLUMN_NAME", "dirty")]
               ++ schemaCondition s) key T = 0.
Proof.
  intros Hno. unfold table_count.
  assert (∀ c, c ∈ colnames T →
            view_row_matches ([("TABLE_NAME", canonicalTable s); ("COLUMN_NAME", "dirty")]
                              ++ schemaCondition s) key.1 key.2 c ≠ true) as Hc.
  { intros c Hin Hm. unfold view_row_matches in Hm.
    rewrite forallb_app in Hm. apply andb_prop in Hm as [Hm1 Hm2].
    simpl in Hm1. rewrite andb_true_r in Hm1. apply andb_prop in Hm1 as [Ht Hd].
    apply bool_decide_eq_true in Ht, Hd.
    unfold view_field in Ht, Hd. simpl in Ht, Hd.
    injection Ht as Ht. injection Hd as Hd. subst c.
    destruct Hno as [Hno|[Hno|Hno]]; [done| |done].
    apply Hno. unfold schemaSelected, schemaCondition in *.
    destruct (dbType s); simpl in Hm2; try done;
      rewrite andb_true_r in Hm2; apply bool_decide_eq_true in Hm2;
      unfold view_field in Hm2; simpl in Hm2; by injection Hm2. }
  revert Hc. generalize (colnames T). intros cs.
  induction cs as [|c cs IH]; intros Hc; [done|].
  rewrite filter_cons, decide_False; [|apply Hc, elem_of_cons; by left].
  apply IH. intros c' Hin. apply Hc, elem_of_cons. by right.
Qed.

Lemma known_conditions s :
  forallb known_field ([("TABLE_NAME", canonicalTable s); ("COLUMN_NAME", "dirty")]
                       ++ schemaCondition s) = true.
Proof. unfold schemaCondition. by destruct (dbType s). Qed.

(** The detector reads only: its verdict is a function of the database. *)
Lemma isSchemaMigrationNeeded_ref s (w : World Database) :
  isSchemaMigrationNeeded s w =
    ((isSchemaMigrationNeeded s (start (db w))).1,
     mkWorld (db w) (log w ++ [detectionQuery s])).
Proof.
  unfold isSchemaMigrationNeeded, detectionQuery. case_decide.
  - unfold isSchemaMigrationNeededSQLite, bind. rewrite !send_unfold.
    rewrite ref_run_read by done. simpl db.
    destruct (run _ (db w)).1 as [e|rows]; [done|]. simpl.
    destruct (scanAll rows) as [e|data]; [done|]. simpl.
    by destruct (findDirty data).
  - unfold bind. rewrite !queryRowScan_unfold, ref_run_read by done. simpl db.
    by destruct (scanOne _ _).
Qed.

Lemma verdict_count_zero s d :
  dbType s ≠ SqliteDBType → kind d ≠ SqliteDBType →
  count_columns ([("TABLE_NAME", canonicalTable s); ("COLUMN_NAME", "dirty")]
                 ++ schemaCondition s) (tables d) = 0 →
  (isSchemaMigrationNeeded s (start d)).1 = Ok false.
Proof.
  intros Hs Hd Hz. unfold isSchemaMigrationNeeded. rewrite decide_False by done.
  unfold bind. rewrite queryRowScan_unfold. simpl.
  rewrite decide_False by done. unfold columnCountQuery.
  pose proof (known_conditions s) as Hk. simpl in Hk, Hz. rewrite Hk. simpl.
  rewrite Hz. done.
Qed.

Lemma pragma_scan (g : nat → ColumnDef → Row) cs :
  (∀ i c, ∃ v0 v2 v3 v4 v5, g i c = [v0; VText (cname c); v2; v3; v4; v5]) →
  ∃ data, scanAll (imap g cs) = inr data
          ∧ findDirty data = Some (bool_decide ("dirty" ∈ cname <$> cs)).
Proof.
  revert g. induction cs as [|c cs IH]; intros g Hg.
  - by exists [].
  - rewrite imap_cons. destruct (Hg 0 c) as (v0 & v2 & v3 & v4 & v5 & ->).
    destruct (IH (g ∘ S)) as (data & Hs & Hf); [intros; apply Hg|].
    simpl. rewrite Hs. eexists; split; [done|]. simpl.
    destruct (String.eqb_spec (cname c) "dirty") as [->|Hne].
    + by rewrite bool_decide_eq_true_2 by left.
    + rewrite Hf. f_equal. apply bool_decide_ext. rewrite elem_of_cons.
      split; [by right|]. by intros [?|?].
Qed.

Lemma verdict_sqlite s d :
  dbType s = SqliteDBType → kind d = SqliteDBType →
  (isSchemaMigrationNeeded s (start d)).1 =
    Ok (from_option (λ T, bool_decide ("dirty" ∈ colnames T)) false
          (tables d !! here d (canonicalTable s))).
Proof.
  intros Hs Hd. unfold isSchemaMigrationNeeded. rewrite decide_True by done.
  unfold isSchemaMigrationNeededSQLite, bind. rewrite send_unfold. simpl.
  rewrite decide_True by done. simpl.
  destruct (tables d !! here d (canonicalTable s)) as [T|]; simpl; [|done].
  destruct (pragma_scan (pragma_row T) (columns T)) as (data & Hscan & Hfind);
    [unfold pragma_row; by eauto 10|].
  unfold pragma_rows. rewrite Hscan. simpl. by rewrite Hfind.
Qed.

Lemma set_tables_id d : set_tables d (tables d) = d.
Proof. by destruct d. Qed.

Lemma here_set_tables d ts t : here (set_tables d ts) t = here d t.
Proof. done. Qed.

Lemma insert_rows_inv T cols values T1 :
  insert_rows T cols values = inr T1 →
  columns T1 = columns T ∧ pkey T1 = pkey T
  ∧ rows T1 = rows T ++ (complete_row T cols <$> values)
  ∧ NoDup (key_values T (rows T1)).
Proof.
  unfold insert_rows. repeat case_match; try done. intros [= <-]. by simpl.
Qed.

Lemma rename_ref_inv syn a b (d : Database) res d' :
  run (Rename syn a b) d = (inr res, d') →
  ∃ T, tables d !! here d a = Some T ∧ tables d !! here d b = None
       ∧ d' = set_tables d (<[here d b := T]> (delete (here d a) (tables d))).
Proof. simpl. repeat case_match; try done. intros [= <- <-]. eauto. Qed.

Section Reference.
Variable temp : string.
Variable readDir : string → error + list string.
Variable newMigration : string → error + Migration.

Hypothesis temp_not_canonical : temp ≠ "schema_migrations".
Hypothesis temp_not_backup : temp ≠ "schema_migrations_old_temp".

Lemma canonical_ne_temp s : canonicalTable s ≠ tempTable temp s.
Proof. unfold canonicalTable, tempTable. by intros ?%String.app_inj. Qed.

Lemma backup_ne_temp s : oldTempTable s ≠ tempTable temp s.
Proof. unfold oldTempTable, tempTable. by intros ?%String.app_inj. Qed.

Lemma canonical_ne_backup s : canonicalTable s ≠ oldTempTable s.
Proof. unfold canonicalTable, oldTempTable. by intros ?%String.app_inj. Qed.

Lemma getLegacySchemaVersion_ref s (w : World Database) :
  getLegacySchemaVersion s w =
    ((getLegacySchemaVersion s (start (db w))).1,
     mkWorld (db w) (log w ++ [SelectFrom "version" (canonicalTable s)])).
Proof.
  unfold getLegacySchemaVersion. rewrite !queryRowScan_unfold.
  by rewrite ref_run_read by done.
Qed.

Lemma createTempSchemaTable_ref s (w : World Database) :
  createTempSchemaTable temp s w =
    (Ok tt,
     mkWorld (set_tables (db w)
                (<[here (db w) (tempTable temp s) :=
                     default freshTempTable (tables (db w) !! here (db w) (tempTable temp s))]>
                   (tables (db w))))
             (log w ++ [CreateTableIfNotExists (tempTable temp s) tempColumns "Version"])).
Proof.
  unfold createTempSchemaTable. rewrite exec_unfold. simpl.
  destruct (tables (db w) !! here (db w) (tempTable temp s)) as [T|] eqn:Hl; simpl.
  - by rewrite insert_id, set_tables_id.
  - done.
Qed.

Lemma populateTempSchemaTable_ref_ok s ms (w w' : World Database) :
  populateTempSchemaTable temp s ms w = (Ok tt, w') →
  ms ≠ [] ∧ ∃ T0 T1,
    tables (db w) !! here (db w) (tempTable temp s) = Some T0
    ∧ insert_rows T0 ["Version"; "Name"] (migrationRow <$> ms) = inr T1
    ∧ w' = mkWorld (set_tables (db w)
                      (<[here (db w) (tempTable temp s) := T1]> (tables (db w))))
                   (log w ++ [InsertValues (tempTable temp s) ["Version"; "Name"]
                                (migrationRow <$> ms)]).
Proof.
  unfold populateTempSchemaTable. rewrite exec_unfold.
  destruct ms as [|m ms]; [done|]. simpl.
  destruct (tables (db w) !! _) as [T0|]; [|done].
  destruct (insert_rows T0 _ _) as [e|T1] eqn:Hins; [done|].
  simpl. intros [= <-]. split; [done|]. by exists T0, T1.
Qed.

Lemma populateTempSchemaTable_ref_err s ms (w w' : World Database) e :
  populateTempSchemaTable temp s ms w = (Err e, w') →
  w' = mkWorld (db w)
         (log w ++ [InsertValues (tempTable temp s) ["Version"; "Name"]
                      (migrationRow <$> ms)]).
Proof.
  unfold populateTempSchemaTable. rewrite exec_unfold.
  destruct ms as [|m ms]; simpl; [by intros [= _ <-]; destruct w|].
  destruct (tables (db w) !! _) as [T0|]; [|by intros [= _ <-]; destruct w].
  destruct (insert_rows T0 _ _) as [e'|T1]; [by intros [= _ <-]; destruct w|done].
Qed.

Lemma useNewSchemaTable_ref_ok s (w w' : World Database) :
  useNewSchemaTable temp s w = (Ok tt, w') →
  ∃ Told Tnew,
    tables (db w) !! here (db w) (canonicalTable s) = Some Told
    ∧ tables (db w) !! here (db w) (oldTempTable s) = None
    ∧ tables (db w) !! here (db w) (tempTable temp s) = Some Tnew
    ∧ w' = mkWorld
             (set_tables (db w)
                (<[here (db w) (canonicalTable s) := Tnew]>
                   (delete (here (db w) (tempTable temp s))
                      (<[here (db w) (oldTempTable s) := Told]>
                         (delete (here (db w) (canonicalTable s)) (tables (db w)))))))
             (log w ++ [Rename (renameSyntax s) (canonicalTable s) (oldTempTable s);
                        Rename (renameSyntax s) (tempTable temp s) (canonicalTable s)]).
Proof.
  unfold useNewSchemaTable. intros (? & w1 & H1 & H2)%bind_ok_inv.
  apply exec_ok_inv in H1 as (r1 & d1 & Hr1 & ->).
  apply exec_ok_inv in H2 as (r2 & d2 & Hr2 & ->).
  cbn [db log] in *.
  apply rename_ref_inv in Hr1 as (Told & Hc & Ho & ->).
  apply rename_ref_inv in Hr2 as (Tnew & Ht & _ & ->).
  rewrite ?here_set_tables in *.
  cbn [tables set_tables] in *.
  rewrite lookup_insert_ne, lookup_delete_ne in Ht;
    [|intros [= ?]; by eapply canonical_ne_temp|intros [= ?]; by eapply backup_ne_temp].
  exists Told, Tnew. repeat split; try done.
  by rewrite <-app_assoc.
Qed.

(** A successful call that found the legacy format: what it read, what it
    inserted, and every table of the database afterwards. *)
Lemma Ensure_migrated s (w0 w1 : World Database) :
  (isSchemaMigrationNeeded s w0).1 = Ok true →
  EnsureSchemaMigrationFormat temp readDir newMigration s w0 = (Ok tt, w1) →
  ∃ V ms Told T1,
    getEmbeddedMigrations readDir newMigration = inr ms
    ∧ tables (db w0) !! here (db w0) (canonicalTable s) = Some Told
    ∧ (getLegacySchemaVersion s (start (db w0))).1 = Ok V
    ∧ filterMigrations ms V ≠ []
    ∧ insert_rows
        (default freshTempTable (tables (db w0) !! here (db w0) (tempTable temp s)))
        ["Version"; "Name"] (migrationRow <$> filterMigrations ms V) = inr T1
    ∧ kind (db w1) = kind (db w0)
    ∧ current_schema (db w1) = current_schema (db w0)
    ∧ (∀ key, tables (db w1) !! key =
              if decide (key = here (db w0) (canonicalTable s)) then Some T1
              else if decide (key = here (db w0) (oldTempTable s)) then Some Told
              else if decide (key = here (db w0) (tempTable temp s)) then None
              else tables (db w0) !! key)
    ∧ log w1 = log w0 ++
        [detectionQuery s; SelectFrom "version" (canonicalTable s);
         CreateTableIfNotExists (tempTable temp s) tempColumns "Version";
         InsertValues (tempTable temp s) ["Version"; "Name"]
           (migrationRow <$> filterMigrations ms V);
         Rename (renameSyntax s) (canonicalTable s) (oldTempTable s);
         Rename (renameSyntax s) (tempTable temp s) (canonicalTable s)].
Proof.
  intros Hneed Hrun. rewrite Ensure_cascade in Hrun.
  rewrite isSchemaMigrationNeeded_ref in Hrun, Hneed. cbn [fst] in Hneed.
  rewrite Hneed in Hrun.
  rewrite getLegacySchemaVersion_ref in Hrun. cbn [db log] in Hrun.
  destruct (getLegacySchemaVersion s (start (db w0))).1 as [V|e|] eqn:HV;
    cbn [fst] in Hrun; try done.
  destruct (getEmbeddedMigrations readDir newMigration) as [e|ms] eqn:Hms; [done|].
  rewrite createTempSchemaTable_ref in Hrun. cbn [db log] in Hrun.
  destruct (populateTempSchemaTable temp s _ _) as [[[]|e|] w4] eqn:Hpop; try done.
  apply populateTempSchemaTable_ref_ok in Hpop as (Hne & T0 & T1 & HT0 & Hins & ->).
  apply useNewSchemaTable_ref_ok in Hrun as (Told & Tnew & Hc & Ho & Ht & ->).
  cbn [db log] in *. rewrite ?here_set_tables in *.
  cbn [tables set_tables kind current_schema] in *.
  rewrite lookup_insert_eq in HT0, Ht. injection HT0 as <-. injection Ht as <-.
  rewrite !lookup_insert_ne in Hc, Ho
    by (intros [= ?]; first [by eapply canonical_ne_temp|by eapply backup_ne_temp]).
  exists V, ms, Told, T1. repeat split; try done.
  - intros key.
    assert (here (db w0) (tempTable temp s) ≠ here (db w0) (oldTempTable s)) as Hto
      by (intros [= ?]; by eapply backup_ne_temp).
    destruct (decide (key = here (db w0) (canonicalTable s))) as [->|Hkc];
      [by rewrite lookup_insert_eq|].
    rewrite lookup_insert_ne by done.
    destruct (decide (key = here (db w0) (oldTempTable s))) as [->|Hko];
      [by rewrite lookup_delete_ne, lookup_insert_eq|].
    destruct (decide (key = here (db w0) (tempTable temp s))) as [->|Hkt];
      [by rewrite lookup_delete_eq|].
    by rewrite lookup_delete_ne, lookup_insert_ne, lookup_delete_ne,
         !lookup_insert_ne by done.
  - by rewrite <-!app_assoc.
Qed.

End Reference.

Lemma complete_migrationRow m :
  complete_row freshTempTable ["Version"; "Name"] (migrationRow m) = migrationRow m.
Proof. done. Qed.

Lemma legacy_version_read s d V0 dirty V :
  tables d !! here d (canonicalTable s) = Some (legacyTable V0 dirty) →
  (getLegacySchemaVersion s (start d)).1 = Ok V → V = V0.
Proof.
  intros Hl. unfold getLegacySchemaVersion. rewrite queryRowScan_unfold. simpl.
  rewrite Hl. simpl. unfold in_range.
  destruct (_ && _); [by intros [= ->]|done].
Qed.

(** ** The claims *)

(** C1, as amended.  Take a database whose canonical table is the legacy
    table holding version [V], in which the temp working table is absent or
    is the empty table the create step makes, and on which the detector
    reports the legacy format.  After a successful call of
    [EnsureSchemaMigrationFormat] the canonical table's rows are exactly the
    Up descriptors of the catalogue with version at most [V], as
    (version, name) pairs in catalogue order, no version occurs twice, and
    the table named with the [_old_temp] suffix is the former legacy table
    with its row. *)
Theorem migrated_rows_are_applied_migrations
    temp readDir newMigration s (w0 w1 : World Database) V dirty catalog :
  temp ≠ "schema_migrations" → temp ≠ "schema_migrations_old_temp" →
  tables (db w0) !! here (db w0) (canonicalTable s) = Some (legacyTable V dirty) →
  (tables (db w0) !! here (db w0) (tempTable temp s) = None
   ∨ tables (db w0) !! here (db w0) (tempTable temp s) = Some freshTempTable) →
  (isSchemaMigrationNeeded s w0).1 = Ok true →
  getEmbeddedMigrations readDir newMigration = inr catalog →
  EnsureSchemaMigrationFormat temp readDir newMigration s w0 = (Ok tt, w1) →
  let applied := filter (λ m, Direction m = Up ∧ (Version m ≤ V)%Z) catalog in
  ∃ T, tables (db w1) !! here (db w1) (canonicalTable s) = Some T
       ∧ rows T = migrationRow <$> applied
       ∧ NoDup (Version <$> applied)
       ∧ tables (db w1) !! here (db w1) (oldTempTable s) = Some (legacyTable V dirty).
Proof.
  intros Hn1 Hn2 Hlegacy Htemp Hneed Hcat Hrun applied.
  destruct (Ensure_migrated temp readDir newMigration Hn1 Hn2 s w0 w1 Hneed Hrun)
    as (V' & ms & Told & T1 & Hms & Hold & HV & _ & Hins & _ & Hcur & Hlook & _).
  rewrite Hcat in Hms. injection Hms as <-.
  rewrite Hlegacy in Hold. injection Hold as <-.
  apply (legacy_version_read _ _ _ _ _ Hlegacy) in HV as ->.
  assert (default freshTempTable (tables (db w0) !! here (db w0) (tempTable temp s))
          = freshTempTable) as HT0 by (by destruct Htemp as [-> | ->]).
  rewrite HT0 in Hins. apply insert_rows_inv in Hins as (_ & _ & Hrows & Hkeys).
  rewrite filterMigrations_filter in Hrows. fold applied in Hrows.
  assert (rows T1 = migrationRow <$> applied) as HT1.
  { rewrite Hrows. simpl. rewrite <-list_fmap_compose.
    apply list_fmap_ext. intros _ m _. apply complete_migrationRow. }
  exists T1. unfold here. rewrite Hcur. fold (here (db w0)).
  rewrite !Hlook. rewrite decide_True by done.
  rewrite decide_False by (intros [= ?]; by eapply canonical_ne_backup).
  rewrite decide_True by done.
  repeat split; try done.
  rewrite HT1 in Hkeys.
  change (NoDup ((λ r : Row, default VNull (r !! 0)) <$> (migrationRow <$> applied)))
    in Hkeys.
  rewrite <-list_fmap_compose in Hkeys.
  apply (NoDup_fmap_1 VInt). by rewrite <-list_fmap_compose.
Qed.

Lemma migrated_rows_are_applied_migrations_witness :
  let s := storeOf MysqlDBType in
  let w0 := start (legacyDatabase MysqlDBType "boards" 5) in
  ∃ T, tables (db (exampleEnsure [1; 2; 3; 4; 5; 6]%Z s w0).2)
         !! ("boards", "fb_schema_migrations") = Some T
       ∧ rows T = migrationRow <$> (upMigration <$> [1; 2; 3; 4; 5]%Z)
       ∧ NoDup [1; 2; 3; 4; 5]%Z
       ∧ tables (db (exampleEnsure [1; 2; 3; 4; 5; 6]%Z s w0).2)
           !! ("boards", "fb_schema_migrations_old_temp") = Some (legacyTable 5 false).
Proof.
  intros s w0.
  assert (∃ T, tables (db (exampleEnsure [1; 2; 3; 4; 5; 6]%Z s w0).2)
                 !! here (db (exampleEnsure [1; 2; 3; 4; 5; 6]%Z s w0).2) (canonicalTable s)
               = Some T
             ∧ rows T = migrationRow <$>
                 filter (λ m, Direction m = Up ∧ (Version m ≤ 5)%Z)
                   (upMigration <$> [1; 2; 3; 4; 5; 6]%Z)
             ∧ NoDup (Version <$>
                 filter (λ m, Direction m = Up ∧ (Version m ≤ 5)%Z)
                   (upMigration <$> [1; 2; 3; 4; 5; 6]%Z))
             ∧ tables (db (exampleEnsure [1; 2; 3; 4; 5; 6]%Z s w0).2)
                 !! here (db (exampleEnsure [1; 2; 3; 4; 5; 6]%Z s w0).2) (oldTempTable s)
               = Some (legacyTable 5 false)) as H.
  { apply (migrated_rows_are_applied_migrations exampleTempName
             (exampleReadDir (exampleFiles [1; 2; 3; 4; 5; 6]%Z))
             (exampleNewMigration [1; 2; 3; 4; 5; 6]%Z) s w0
             (exampleEnsure [1; 2; 3; 4; 5; 6]%Z s w0).2 5 false
             (upMigration <$> [1; 2; 3; 4; 5; 6]%Z)).
    - done.
    - done.
    - vm_compute. reflexivity.
    - left. vm_compute. reflexivity.
    - vm_compute. reflexivity.
    - vm_compute. reflexivity.
    - vm_compute. reflexivity. }
  vm_compute in H. vm_compute. exact H.
Defined.

(** C1 as stated fails: with rows left in the temp table by an earlier
    attempt, the call succeeds and the canonical table holds an extraneous
    version. *)
Lemma stale_temp_rows_reach_canonical_table :
  let s := storeOf MysqlDBType in
  let w0 := start staleRowDatabase in
  tables (db w0) !! here (db w0) (canonicalTable s) = Some (legacyTable 1 false)
  ∧ getEmbeddedMigrations (exampleReadDir (exampleFiles [1]%Z)) (exampleNewMigration [1]%Z)
    = inr [upMigration 1]
  ∧ ∃ w1 T, exampleEnsure [1]%Z s w0 = (Ok tt, w1)
       ∧ tables (db w1) !! here (db w1) (canonicalTable s) = Some T
       ∧ rows T = [[VInt 7; VText "stale"]; [VInt 1; VText "m1"]]
       ∧ rows T ≠ migrationRow <$> filter (λ m, Direction m = Up ∧ (Version m ≤ 1)%Z) [upMigration 1].
Proof.
  intros s w0. split; [by vm_compute|]. split; [by vm_compute|].
  eexists _, _. split; [vm_compute; reflexivity|].
  split; [vm_compute; reflexivity|]. split; [done|]. by vm_compute.
Qed.

Lemma verdict_ok_kind s d b :
  (isSchemaMigrationNeeded s (start d)).1 = Ok b →
  (dbType s = SqliteDBType ↔ kind d = SqliteDBType).
Proof.
  unfold isSchemaMigrationNeeded. case_decide as Hs.
  - unfold isSchemaMigrationNeededSQLite, bind. rewrite send_unfold. simpl.
    destruct (decide (kind d = SqliteDBType)); [done|]. by simpl.
  - unfold bind. rewrite queryRowScan_unfold. simpl.
    destruct (decide (kind d = SqliteDBType)); [by simpl|]. done.
Qed.

(** When the detector finds nothing to do, the call is the detection query
    and nothing else. *)
Lemma Ensure_not_needed temp readDir newMigration s (w : World Database) :
  (isSchemaMigrationNeeded s (start (db w))).1 = Ok false →
  EnsureSchemaMigrationFormat temp readDir newMigration s w =
    (Ok tt, mkWorld (db w) (log w ++ [detectionQuery s])).
Proof.
  intros Hv. rewrite Ensure_cascade, isSchemaMigrationNeeded_ref. by rewrite Hv.
Qed.

Lemma detectionQuery_reads s : is_write (detectionQuery s) = false.
Proof. unfold detectionQuery. by case_decide. Qed.

(** C2, as amended.  Start from a database in which the only table whose
    [dirty] column the detector's metadata query can count is the canonical
    table of the connection's current schema, and in which the temp working
    table, if it exists already, has no [dirty] column.  After a successful
    call of [EnsureSchemaMigrationFormat], a second call returns no error,
    sends the read-only detection query and nothing else (no create, insert
    or rename), and leaves the database as it was. *)
Theorem second_call_only_detects
    temp readDir newMigration s (w0 w1 : World Database) :
  temp ≠ "schema_migrations" → temp ≠ "schema_migrations_old_temp" →
  detectorScoped s (db w0) →
  (∀ T, tables (db w0) !! here (db w0) (tempTable temp s) = Some T →
        "dirty" ∉ colnames T) →
  EnsureSchemaMigrationFormat temp readDir newMigration s w0 = (Ok tt, w1) →
  ∃ w2, EnsureSchemaMigrationFormat temp readDir newMigration s w1 = (Ok tt, w2)
        ∧ db w2 = db w1
        ∧ log w2 = log w1 ++ [detectionQuery s]
        ∧ is_write (detectionQuery s) = false.
Proof.
  intros Hn1 Hn2 Hscoped Htemp Hrun.
  enough ((isSchemaMigrationNeeded s (start (db w1))).1 = Ok false) as Hv.
  { eexists. split; [by apply Ensure_not_needed|].
    split; [done|]. split; [done|]. apply detectionQuery_reads. }
  destruct (isSchemaMigrationNeeded s (start (db w0))).1 as [[|]|e|] eqn:Hv0.
  - (* the first call migrated *)
    assert ((isSchemaMigrationNeeded s w0).1 = Ok true) as Hneed
      by (by rewrite isSchemaMigrationNeeded_ref).
    destruct (Ensure_migrated temp readDir newMigration Hn1 Hn2 s w0 w1 Hneed Hrun)
      as (V & ms & Told & T1 & _ & _ & _ & _ & Hins & Hkind & Hcur & Hlook & _).
    apply insert_rows_inv in Hins as (Hcols & _).
    assert ("dirty" ∉ colnames T1) as Hclean.
    { unfold colnames. rewrite Hcols.
      destruct (tables (db w0) !! here (db w0) (tempTable temp s)) as [T|] eqn:HT; simpl.
      - by apply Htemp.
      - rewrite !not_elem_of_cons. split_and!; [done..|apply not_elem_of_nil]. }
    pose proof (verdict_ok_kind _ _ _ Hv0) as Hk.
    destruct (decide (dbType s = SqliteDBType)) as [Hs|Hs].
    + rewrite verdict_sqlite by (rewrite ?Hkind; tauto).
      unfold here. rewrite Hcur. fold (here (db w0)).
      rewrite Hlook, decide_True by done. simpl.
      by rewrite bool_decide_eq_false_2.
    + apply verdict_count_zero; [done|rewrite Hkind; tauto|].
      apply count_columns_zero. intros key T Hkey. apply table_count_zero.
      rewrite Hlook in Hkey. repeat case_decide; simplify_eq.
      * by right; right.
      * left. simpl. intros ?. by eapply canonical_ne_backup.
      * destruct (decide (key.2 = canonicalTable s)) as [Hname|]; [|by left].
        destruct (decide ("dirty" ∈ colnames T)) as [Hd|]; [|by right; right].
        right; left. intros Hsel. by specialize (Hscoped key T Hkey Hname Hsel Hd).
  - (* the first call found nothing to do *)
    rewrite Ensure_not_needed in Hrun by done. by injection Hrun as <-.
  - rewrite Ensure_cascade, isSchemaMigrationNeeded_ref, Hv0 in Hrun. done.
  - rewrite Ensure_cascade, isSchemaMigrationNeeded_ref, Hv0 in Hrun. done.
Qed.

Lemma second_call_only_detects_witness :
  let s := storeOf MysqlDBType in
  let w0 := start (legacyDatabase MysqlDBType "boards" 5) in
  let w1 := (exampleEnsure [1; 2; 3; 4; 5; 6]%Z s w0).2 in
  ∃ w2, exampleEnsure [1; 2; 3; 4; 5; 6]%Z s w1 = (Ok tt, w2)
        ∧ db w2 = db w1
        ∧ log w2 = log w1 ++ [detectionQuery s]
        ∧ is_write (detectionQuery s) = false.
Proof.
  intros s w0 w1.
  apply (second_call_only_detects exampleTempName
           (exampleReadDir (exampleFiles [1; 2; 3; 4; 5; 6]%Z))
           (exampleNewMigration [1; 2; 3; 4; 5; 6]%Z) s w0 w1).
  - done.
  - done.
  - intros key T Hkey _ _ _.
    unfold w0, start, legacyDatabase in Hkey. cbn [db tables] in Hkey.
    apply lookup_singleton_Some in Hkey as [<- _]. reflexivity.
  - intros T HT.
    unfold w0, start, legacyDatabase in HT. cbn [db tables] in HT.
    apply lookup_singleton_Some in HT as [HT _]. discriminate HT.
  - vm_compute. reflexivity.
Defined.

(** C2 as stated fails: a table with a [dirty] column under the temp name is
    promoted by the first, successful call; the second call detects the
    legacy format again, creates and fills a new temp table, and ends in an
    error at the first rename. *)
Lemma promoted_dirty_table_is_migrated_again :
  let s := storeOf MysqlDBType in
  ∃ w1, exampleEnsure [1]%Z s (start staleDirtyDatabase) = (Ok tt, w1)
        ∧ (isSchemaMigrationNeeded s w1).1 = Ok true
        ∧ (exampleEnsure [1]%Z s w1).1 = Err (ErrDriver "table already exists")
        ∧ drop (length (log w1)) (log (exampleEnsure [1]%Z s w1).2)
          = [columnCountQuery s;
             SelectFrom "version" "fb_schema_migrations";
             CreateTableIfNotExists "fb_temp_schema_migration" tempColumns "Version";
             InsertValues "fb_temp_schema_migration" ["Version"; "Name"]
               [[VInt 1; VText "m1"]];
             Rename RenameTableTo "fb_schema_migrations" "fb_schema_migrations_old_temp"].
Proof.
  intros s. eexists. split; [vm_compute; reflexivity|].
  repeat split; vm_compute; reflexivity.
Qed.

(** On one legacy fixture and one new-shaped fixture per dialect: the
    MySQL, generic and SQLite detectors tell them apart. *)
Lemma detector_on_fixtures :
  Forall (λ t, (isSchemaMigrationNeeded (storeOf t) (start (legacyDatabase t "boards" 5))).1
               = Ok true
               ∧ (isSchemaMigrationNeeded (storeOf t) (start (migratedDatabase t "boards"))).1
                 = Ok false)
         [MysqlDBType; OtherDBType; SqliteDBType].
Proof. repeat constructor; vm_compute; reflexivity. Qed.

(** C3 (the code departs from it on the Postgres dialect).  The schema
    condition of the Postgres branch is the pair
    [("TABLE_SCHEMA", "current_schema()")] of an [sq.Eq] map, so the text
    [current_schema()] is the value the schema name is compared with, not a
    call that resolves the current schema: on a Postgres database in which no
    schema bears that literal name the detector answers false whatever
    columns the canonical table has. *)
Theorem postgres_detector_compares_schema_name_with_literal
    s (d : Database) :
  dbType s = PostgresDBType → kind d ≠ SqliteDBType →
  (∀ key T, tables d !! key = Some T → key.1 ≠ "current_schema()") →
  columnCountQuery s =
    SelectCountWhere "information_schema.COLUMNS"
      [("TABLE_NAME", canonicalTable s); ("COLUMN_NAME", "dirty");
       ("TABLE_SCHEMA", "current_schema()")]
  ∧ (isSchemaMigrationNeeded s (start d)).1 = Ok false.
Proof.
  intros Hs Hd Hno. split.
  - unfold columnCountQuery, schemaCondition. by rewrite Hs.
  - apply verdict_count_zero; [by rewrite Hs|done|].
    apply count_columns_zero. intros key T Hkey. apply table_count_zero.
    right; left. unfold schemaSelected. rewrite Hs. by apply (Hno key T).
Qed.

Lemma postgres_detector_compares_schema_name_with_literal_witness :
  let s := storeOf PostgresDBType in
  let d := legacyDatabase PostgresDBType "public" 5 in
  tables d !! here d (canonicalTable s) = Some (legacyTable 5 false)
  ∧ "dirty" ∈ colnames (legacyTable 5 false)
  ∧ (isSchemaMigrationNeeded s (start d)).1 = Ok false.
Proof.
  intros s d. split; [vm_compute; reflexivity|].
  split; [apply elem_of_cons; right; apply elem_of_cons; by left|].
  apply (postgres_detector_compares_schema_name_with_literal s d).
  - reflexivity.
  - discriminate.
  - intros key T Hkey. unfold d, legacyDatabase in Hkey. cbn [tables] in Hkey.
    apply lookup_singleton_Some in Hkey as [<- _]. discriminate.
Defined.

(** C4.  For a store whose dialect is not SQLite, whatever the backend: the
    detector sends the metadata query once; if the query or the scan of its
    result fails, that error is the result; otherwise the verdict is true
    exactly when the scanned count equals 1, so 0, 2 and anything larger
    give false. *)
Theorem detector_needs_count_exactly_one
    {DB : Type} `{!Backend DB} s (w : World DB) :
  dbType s ≠ SqliteDBType →
  let q := columnCountQuery s in
  let after := mkWorld (run q (db w)).2 (log w ++ [q]) in
  (∀ e, (run q (db w)).1 = inl e → isSchemaMigrationNeeded s w = (Err e, after))
  ∧ (∀ e, scanOne convertInt (run q (db w)).1 = inl e →
          isSchemaMigrationNeeded s w = (Err e, after))
  ∧ (∀ count, scanOne convertInt (run q (db w)).1 = inr count →
              isSchemaMigrationNeeded s w = (Ok (bool_decide (count = 1%Z)), after)).
Proof.
  intros Hs q after. unfold isSchemaMigrationNeeded. rewrite decide_False by done.
  unfold bind. rewrite queryRowScan_unfold. fold q. fold after.
  split; [|split].
  - by intros e ->.
  - by intros e ->.
  - intros count ->. do 2 f_equal.
    destruct (Z.eqb_spec count 1);
      [by rewrite bool_decide_eq_true_2|by rewrite bool_decide_eq_false_2].
Qed.

Lemma detector_needs_count_exactly_one_witness :
  let s := storeOf OtherDBType in
  let counted (n : Z) := start {| answer := inr [[VInt n]] |} in
  let broken := start {| answer := inl (ErrDriver "connection lost") |} in
  let empty := start {| answer := inr [] |} in
  dbType s ≠ SqliteDBType
  ∧ (isSchemaMigrationNeeded s (counted 0%Z)).1 = Ok false
  ∧ (isSchemaMigrationNeeded s (counted 1%Z)).1 = Ok true
  ∧ (isSchemaMigrationNeeded s (counted 2%Z)).1 = Ok false
  ∧ (isSchemaMigrationNeeded s broken).1 = Err (ErrDriver "connection lost")
  ∧ (isSchemaMigrationNeeded s empty).1 = Err ErrNoRows.
Proof.
  intros s counted broken empty.
  assert (dbType s ≠ SqliteDBType) as Hs by discriminate.
  split; [exact Hs|].
  destruct (detector_needs_count_exactly_one s (counted 0%Z) Hs) as (_ & _ & H0).
  destruct (detector_needs_count_exactly_one s (counted 1%Z) Hs) as (_ & _ & H1).
  destruct (detector_needs_count_exactly_one s (counted 2%Z) Hs) as (_ & _ & H2).
  destruct (detector_needs_count_exactly_one s broken Hs) as (Hq & _ & _).
  destruct (detector_needs_count_exactly_one s empty Hs) as (_ & Hscan & _).
  split; [rewrite (H0 0%Z); [reflexivity|vm_compute; reflexivity]|].
  split; [rewrite (H1 1%Z); [reflexivity|vm_compute; reflexivity]|].
  split; [rewrite (H2 2%Z); [reflexivity|vm_compute; reflexivity]|].
  split; [rewrite (Hq (ErrDriver "connection lost")); reflexivity|].
  rewrite (Hscan ErrNoRows); reflexivity.
Defined.

(** C5.  [filterMigrations] keeps, in input order, exactly the Up entries
    whose version is at most the legacy version; on a catalogue that is Up
    only (as [getEmbeddedMigrations] returns it) that is every entry with
    version at most the legacy version.  For versions 1 to 5, each with its
    Up and Down file, and legacy version 3, the result is the Up entries 1,
    2, 3 in catalogue order. *)
Theorem filterMigrations_keeps_applied_in_order :
  (∀ ms V, filterMigrations ms V
           = filter (λ m, Direction m = Up ∧ (Version m ≤ V)%Z) ms)
  ∧ (∀ ms V, filterMigrations (filter (λ m, Direction m = Up) ms) V
             = filter (λ m, (Version m ≤ V)%Z) (filter (λ m, Direction m = Up) ms))
  ∧ (∀ ms V, filterMigrations ms V `sublist_of` ms)
  ∧ filterMigrations ([1; 2; 3; 4; 5]%Z ≫= λ v, [downMigration v; upMigration v]) 3
    = upMigration <$> [1; 2; 3]%Z
  ∧ filterMigrations (upMigration <$> [4; 1; 5; 3; 2]%Z) 3
    = upMigration <$> [1; 3; 2]%Z.
Proof.
  split; [exact filterMigrations_filter|].
  split; [|split; [|split; reflexivity]].
  - intros ms V. rewrite filterMigrations_filter.
    induction ms as [|m ms IH]; [done|].
    rewrite (filter_cons (λ m, Direction m = Up)).
    destruct (decide (Direction m = Up)) as [Hup|Hup]; [|done].
    rewrite !filter_cons. rewrite IH.
    destruct (decide (Version m ≤ V)%Z).
    + by rewrite decide_True.
    + rewrite decide_False; [done|tauto].
  - intros ms V. rewrite filterMigrations_filter. apply sublist_filter.
Qed.

(** C6.  Every step hands its error (or panic) to the orchestrator, which
    returns it with the world that step left and runs nothing further.  On
    the reference backend, when the populate step fails (a duplicate version
    violates the primary key, for instance), [EnsureSchemaMigrationFormat]
    returns that error, the statements sent are the detection query, the
    version read, the create and the insert (no rename), and the canonical
    table is what it was before the call. *)
Theorem populate_failure_stops_before_rename :
  (∀ (DB : Type) (B : Backend DB) temp readDir newMigration s (w0 : World DB),
     EnsureSchemaMigrationFormat temp readDir newMigration s w0 =
       match isSchemaMigrationNeeded s w0 with
       | (Ok true, w1) =>
           match getLegacySchemaVersion s w1 with
           | (Ok V, w2) =>
               match getEmbeddedMigrations readDir newMigration with
               | inr ms =>
                   match createTempSchemaTable temp s w2 with
                   | (Ok _, w3) =>
                       match populateTempSchemaTable temp s (filterMigrations ms V) w3 with
                       | (Ok _, w4) => useNewSchemaTable temp s w4
                       | (Err e, w4) => (Err e, w4)
                       | (Panic, w4) => (Panic, w4)
                       end
                   | (Err e, w3) => (Err e, w3)
                   | (Panic, w3) => (Panic, w3)
                   end
               | inl e => (Err e, w2)
               end
           | (Err e, w2) => (Err e, w2)
           | (Panic, w2) => (Panic, w2)
           end
       | (Ok false, w1) => (Ok tt, w1)
       | (Err e, w1) => (Err e, w1)
       | (Panic, w1) => (Panic, w1)
       end)
  ∧ (∀ temp readDir newMigration s (w0 w1 w2 w3 w4 : World Database) V ms e,
       temp ≠ "schema_migrations" →
       isSchemaMigrationNeeded s w0 = (Ok true, w1) →
       getLegacySchemaVersion s w1 = (Ok V, w2) →
       getEmbeddedMigrations readDir newMigration = inr ms →
       createTempSchemaTable temp s w2 = (Ok tt, w3) →
       populateTempSchemaTable temp s (filterMigrations ms V) w3 = (Err e, w4) →
       EnsureSchemaMigrationFormat temp readDir newMigration s w0 = (Err e, w4)
       ∧ log w4 = log w0 ++
           [detectionQuery s; SelectFrom "version" (canonicalTable s);
            CreateTableIfNotExists (tempTable temp s) tempColumns "Version";
            InsertValues (tempTable temp s) ["Version"; "Name"]
              (migrationRow <$> filterMigrations ms V)]
       ∧ Forall (λ q, is_rename q = false) (drop (length (log w0)) (log w4))
       ∧ tables (db w4) !! here (db w4) (canonicalTable s)
         = tables (db w0) !! here (db w0) (canonicalTable s)).
Proof.
  split; [intros; apply Ensure_cascade|].
  intros temp readDir newMigration s w0 w1 w2 w3 w4 V ms e Hn H1 H2 H3 H4 H5.
  split; [by rewrite Ensure_cascade, H1, H2, H3, H4, H5|].
  rewrite isSchemaMigrationNeeded_ref in H1. injection H1 as _ <-.
  rewrite getLegacySchemaVersion_ref in H2. injection H2 as _ <-.
  rewrite createTempSchemaTable_ref in H4. injection H4 as <-.
  apply populateTempSchemaTable_ref_err in H5 as ->. cbn [db log].
  assert (∀ l : list Stmt, ((((log w0 ++ [detectionQuery s]) ++ [SelectFrom "version" (canonicalTable s)])
            ++ [CreateTableIfNotExists (tempTable temp s) tempColumns "Version"]) ++ l)
          = log w0 ++ [detectionQuery s; SelectFrom "version" (canonicalTable s);
                       CreateTableIfNotExists (tempTable temp s) tempColumns "Version"] ++ l)
    as Hlog by (intros l; by rewrite <-!app_assoc).
  rewrite Hlog. split; [done|]. split.
  - rewrite drop_app_length. repeat constructor.
    unfold detectionQuery. by case_decide.
  - rewrite here_set_tables. cbn [tables set_tables].
    rewrite lookup_insert_ne; [done|].
    intros [= ?]. by eapply canonical_ne_temp.
Qed.

(** A catalogue with version 1 twice: the insert violates the primary key. *)
Lemma populate_failure_stops_before_rename_witness :
  let s := storeOf MysqlDBType in
  let w0 := start (legacyDatabase MysqlDBType "boards" 1) in
  exampleEnsure [1; 1]%Z s w0
  = (Err (ErrDriver "duplicate entry for the primary key"),
     (populateTempSchemaTable exampleTempName s [upMigration 1; upMigration 1]
        (createTempSchemaTable exampleTempName s
           (getLegacySchemaVersion s (isSchemaMigrationNeeded s w0).2).2).2).2)
  ∧ tables (db (exampleEnsure [1; 1]%Z s w0).2) !! ("boards", "fb_schema_migrations")
    = Some (legacyTable 1 false).
Proof.
  intros s w0.
  destruct (proj2 populate_failure_stops_before_rename exampleTempName
              (exampleReadDir (exampleFiles [1; 1]%Z)) (exampleNewMigration [1; 1]%Z)
              s w0
              (isSchemaMigrationNeeded s w0).2
              (getLegacySchemaVersion s (isSchemaMigrationNeeded s w0).2).2
              (createTempSchemaTable exampleTempName s
                 (getLegacySchemaVersion s (isSchemaMigrationNeeded s w0).2).2).2
              (populateTempSchemaTable exampleTempName s [upMigration 1; upMigration 1]
                 (createTempSchemaTable exampleTempName s
                    (getLegacySchemaVersion s (isSchemaMigrationNeeded s w0).2).2).2).2
              1%Z [upMigration 1; upMigration 1]
              (ErrDriver "duplicate entry for the primary key"))
    as (Hres & _ & _ & _).
  - done.
  - vm_compute. reflexivity.
  - vm_compute. reflexivity.
  - vm_compute. reflexivity.
  - vm_compute. reflexivity.
  - vm_compute. reflexivity.
  - split; [exact Hres|]. vm_compute. reflexivity.
Defined.

Lemma string_app_assoc (a b c : string) : (a +:+ b) +:+ c = a +:+ (b +:+ c).
Proof.
  induction a as [|x a IH]; [done|].
  change (String x ((a +:+ b) +:+ c) = String x (a +:+ (b +:+ c))). by f_equal.
Qed.

(** C7.  Whatever the backend, the swap sends the rename of the canonical
    table [<prefix>schema_migrations] to [<prefix>schema_migrations_old_temp]
    (the canonical name followed by [_old_temp]) first; if that fails its
    error is the result and nothing else is sent; otherwise it sends the
    rename of the temp table to the canonical name, and that is all.  Both
    statements are written [RENAME TABLE `a` TO `b`] when the dialect is
    MySQL and [ALTER TABLE a RENAME TO b] otherwise. *)
Theorem swap_is_two_ordered_renames :
  ∀ (DB : Type) (B : Backend DB) temp s (w : World DB),
    let canonical := tablePrefix s +:+ "schema_migrations" in
    let backup := tablePrefix s +:+ "schema_migrations_old_temp" in
    let working := tablePrefix s +:+ temp in
    let syntax :=
      if decide (dbType s = MysqlDBType) then RenameTableTo else AlterTableRenameTo in
    let first := Rename syntax canonical backup in
    let second := Rename syntax working canonical in
    useNewSchemaTable temp s w =
      match run first (db w) with
      | (inl e, d1) => (Err e, mkWorld d1 (log w ++ [first]))
      | (inr _, d1) =>
          match run second d1 with
          | (inl e, d2) => (Err e, mkWorld d2 (log w ++ [first; second]))
          | (inr _, d2) => (Ok tt, mkWorld d2 (log w ++ [first; second]))
          end
      end
    ∧ backup = canonical +:+ "_old_temp"
    ∧ raw_text first
      = Some (if decide (dbType s = MysqlDBType)
              then "RENAME TABLE `" +:+ tablePrefix s +:+ "schema_migrations` TO `"
                   +:+ tablePrefix s +:+ "schema_migrations_old_temp`"
              else "ALTER TABLE " +:+ tablePrefix s +:+ "schema_migrations RENAME TO "
                   +:+ tablePrefix s +:+ "schema_migrations_old_temp")
    ∧ raw_text second
      = Some (if decide (dbType s = MysqlDBType)
              then "RENAME TABLE `" +:+ tablePrefix s +:+ temp +:+ "` TO `"
                   +:+ tablePrefix s +:+ "schema_migrations`"
              else "ALTER TABLE " +:+ tablePrefix s +:+ temp +:+ " RENAME TO "
                   +:+ tablePrefix s +:+ "schema_migrations").
Proof.
  intros DB B temp s w canonical backup working syntax first second.
  split; [|split; [|split]].
  - unfold useNewSchemaTable, bind.
    change (Rename (renameSyntax s) (canonicalTable s) (oldTempTable s)) with first.
    change (Rename (renameSyntax s) (tempTable temp s) (canonicalTable s)) with second.
    rewrite exec_unfold. destruct (run first (db w)) as [[e|r1] d1]; [done|].
    cbn [fst snd]. rewrite exec_unfold. cbn [db log].
    rewrite <-app_assoc. by destruct (run second d1) as [[e|r2] d2].
  - unfold backup, canonical. by rewrite string_app_assoc.
  - unfold first, syntax, canonical, backup. case_decide; simpl; f_equal.
    + by rewrite !string_app_assoc.
    + by rewrite !string_app_assoc.
  - unfold second, syntax, canonical, working. case_decide; simpl; f_equal.
    + by rewrite !string_app_assoc.
    + by rewrite !string_app_assoc.
Qed.

(** On a MySQL and on a Postgres database that hold the canonical and the
    temp table, and on one where the backup name is taken. *)
Lemma swap_is_two_ordered_renames_witness :
  let both (t : DBType) : Database :=
    {| kind := t; current_schema := "boards";
       tables := {[ ("boards", "fb_schema_migrations") := legacyTable 1 false;
                    ("boards", "fb_temp_schema_migration") := freshTempTable ]} |} in
  let taken : Database :=
    {| kind := MysqlDBType; current_schema := "boards";
       tables := {[ ("boards", "fb_schema_migrations") := legacyTable 1 false;
                    ("boards", "fb_schema_migrations_old_temp") := legacyTable 0 false;
                    ("boards", "fb_temp_schema_migration") := freshTempTable ]} |} in
  ((useNewSchemaTable exampleTempName (storeOf MysqlDBType) (start (both MysqlDBType))).1 = Ok tt
   ∧ raw_text <$> log (useNewSchemaTable exampleTempName (storeOf MysqlDBType)
                         (start (both MysqlDBType))).2
     = [Some "RENAME TABLE `fb_schema_migrations` TO `fb_schema_migrations_old_temp`";
        Some "RENAME TABLE `fb_temp_schema_migration` TO `fb_schema_migrations`"])
  ∧ ((useNewSchemaTable exampleTempName (storeOf PostgresDBType)
        (start (both PostgresDBType))).1 = Ok tt
     ∧ raw_text <$> log (useNewSchemaTable exampleTempName (storeOf PostgresDBType)
                           (start (both PostgresDBType))).2
       = [Some "ALTER TABLE fb_schema_migrations RENAME TO fb_schema_migrations_old_temp";
          Some "ALTER TABLE fb_temp_schema_migration RENAME TO fb_schema_migrations"])
  ∧ useNewSchemaTable exampleTempName (storeOf MysqlDBType) (start taken)
    = (Err (ErrDriver "table already exists"),
       mkWorld taken
         [Rename RenameTableTo "fb_schema_migrations" "fb_schema_migrations_old_temp"]).
Proof.
  intros both taken.
  destruct (swap_is_two_ordered_renames Database _ exampleTempName
              (storeOf MysqlDBType) (start (both MysqlDBType))) as (Hmysql & _).
  destruct (swap_is_two_ordered_renames Database _ exampleTempName
              (storeOf PostgresDBType) (start (both PostgresDBType))) as (Hpg & _).
  destruct (swap_is_two_ordered_renames Database _ exampleTempName
              (storeOf MysqlDBType) (start taken)) as (Htaken & _).
  rewrite Hmysql, Hpg, Htaken.
  split; [split; vm_compute; reflexivity|].
  split; [split; vm_compute; reflexivity|].
  vm_compute. reflexivity.
Defined.

Lemma deleteOldSchemaMigrationTable_ref s (w : World Database) :
  deleteOldSchemaMigrationTable s w =
    (Ok tt,
     mkWorld (set_tables (db w) (delete (here (db w) (oldTempTable s)) (tables (db w))))
             (log w ++ [DropTableIfExists (oldTempTable s)])).
Proof. unfold deleteOldSchemaMigrationTable. by rewrite exec_unfold. Qed.

Lemma cleanups_ref s n (w : World Database) :
  cleanups (S n) s w =
    (Ok tt,
     mkWorld (set_tables (db w) (delete (here (db w) (oldTempTable s)) (tables (db w))))
             (log w ++ replicate (S n) (DropTableIfExists (oldTempTable s)))).
Proof.
  revert w. induction n as [|n IH]; intros w.
  - simpl. unfold bind. by rewrite deleteOldSchemaMigrationTable_ref.
  - change (cleanups (S (S n)) s w)
      with (bind (deleteOldSchemaMigrationTable s) (λ _, cleanups (S n) s) w).
    unfold bind at 1. rewrite deleteOldSchemaMigrationTable_ref, IH.
    cbn [db log]. rewrite here_set_tables. cbn [tables set_tables].
    rewrite delete_delete_eq.
    by rewrite <-app_assoc, (replicate_S (S n)).
Qed.

(** C8.  On the reference backend a cleanup call always returns no error; any
    number of calls in a row leaves the database exactly as the first call
    left it, without the backup table and with every other table untouched;
    when the backup table is absent beforehand the call changes nothing.
    Whatever the backend, [EnsureSchemaMigrationFormat] never sends the drop
    statement. *)
Theorem cleanup_is_idempotent_and_never_chained :
  (∀ s (w : World Database) n,
     cleanups (S n) s w =
       (Ok tt,
        mkWorld (deleteOldSchemaMigrationTable s w).2.(db)
                (log w ++ replicate (S n) (DropTableIfExists (oldTempTable s))))
     ∧ tables (deleteOldSchemaMigrationTable s w).2.(db)
         !! here (db w) (oldTempTable s) = None
     ∧ ∀ key, key ≠ here (db w) (oldTempTable s) →
              tables (deleteOldSchemaMigrationTable s w).2.(db) !! key
              = tables (db w) !! key)
  ∧ (∀ s (w : World Database),
       tables (db w) !! here (db w) (oldTempTable s) = None →
       deleteOldSchemaMigrationTable s w =
         (Ok tt, mkWorld (db w) (log w ++ [DropTableIfExists (oldTempTable s)])))
  ∧ (∀ (DB : Type) (B : Backend DB) temp readDir newMigration s (w : World DB),
       ∃ sent, log (EnsureSchemaMigrationFormat temp readDir newMigration s w).2
               = log w ++ sent
               ∧ Forall (λ q, is_drop q = false) sent).
Proof.
  split; [|split].
  - intros s w n. rewrite cleanups_ref, deleteOldSchemaMigrationTable_ref.
    cbn [snd db tables set_tables]. split; [done|]. split.
    + apply lookup_delete_eq.
    + intros key Hkey. by apply lookup_delete_ne.
  - intros s w Habsent. rewrite deleteOldSchemaMigrationTable_ref.
    by rewrite delete_id, set_tables_id.
  - intros DB B temp readDir newMigration s w.
    by apply (emits_Ensure temp readDir newMigration (λ q, is_drop q = false)).
Qed.

Lemma cleanup_is_idempotent_and_never_chained_witness :
  let s := storeOf SqliteDBType in
  let w := start (migratedDatabase SqliteDBType "main") in
  tables (db w) !! here (db w) (oldTempTable s) = None
  ∧ deleteOldSchemaMigrationTable s w
    = (Ok tt, mkWorld (db w) [DropTableIfExists "fb_schema_migrations_old_temp"]).
Proof.
  intros s w.
  assert (tables (db w) !! here (db w) (oldTempTable s) = None) as Habsent
    by (vm_compute; reflexivity).
  split; [exact Habsent|].
  exact (proj1 (proj2 cleanup_is_idempotent_and_never_chained) s w Habsent).
Defined.

(** C9.  When no catalogue entry is at or below the legacy version (legacy
    version 0, say), the filtered list is empty and the populate step still
    sends the insert, with no value rows: there is no guard.  What
    [EnsureSchemaMigrationFormat] then does is what the backend answers to
    that statement: its error is returned, or the swap follows. *)
Theorem empty_filter_still_inserts
    {DB : Type} `{!Backend DB} temp readDir newMigration s
    (w0 w1 w2 w3 : World DB) V ms :
  isSchemaMigrationNeeded s w0 = (Ok true, w1) →
  getLegacySchemaVersion s w1 = (Ok V, w2) →
  getEmbeddedMigrations readDir newMigration = inr ms →
  Forall (λ m, (V < Version m)%Z) ms →
  createTempSchemaTable temp s w2 = (Ok tt, w3) →
  let insert := InsertValues (tempTable temp s) ["Version"; "Name"] [] in
  filterMigrations ms V = []
  ∧ populateTempSchemaTable temp s (filterMigrations ms V) w3 =
      (match (run insert (db w3)).1 with inl e => Err e | inr _ => Ok tt end,
       mkWorld (run insert (db w3)).2 (log w3 ++ [insert]))
  ∧ EnsureSchemaMigrationFormat temp readDir newMigration s w0 =
      match run insert (db w3) with
      | (inl e, d) => (Err e, mkWorld d (log w3 ++ [insert]))
      | (inr _, d) => useNewSchemaTable temp s (mkWorld d (log w3 ++ [insert]))
      end.
Proof.
  intros H1 H2 H3 Habove H4 insert.
  assert (filterMigrations ms V = []) as Hempty.
  { clear H3. induction Habove as [|m ms Hm _ IH]; [done|]. simpl.
    destruct (negb _); [done|].
    by rewrite (proj2 (Z.ltb_lt _ _) Hm). }
  split; [done|]. split.
  - rewrite Hempty. unfold populateTempSchemaTable. by rewrite exec_unfold.
  - rewrite Ensure_cascade, H1, H2, H3, H4, Hempty.
    unfold populateTempSchemaTable. rewrite exec_unfold. simpl fmap.
    unfold insert. by destruct (run _ (db w3)) as [[e|r] d].
Qed.

Lemma empty_filter_still_inserts_witness :
  let s := storeOf SqliteDBType in
  let w0 := start (legacyDatabase SqliteDBType "main" 0) in
  filterMigrations (upMigration <$> [1; 2; 3]%Z) 0 = []
  ∧ exampleEnsure [1; 2; 3]%Z s w0
    = (Err (ErrBuilder "insert statements must have at least one set of values or select clause"),
       mkWorld (createTempSchemaTable exampleTempName s (start (db w0))).2.(db)
         [PragmaTableInfo "fb_schema_migrations";
          SelectFrom "version" "fb_schema_migrations";
          CreateTableIfNotExists "fb_temp_schema_migration" tempColumns "Version";
          InsertValues "fb_temp_schema_migration" ["Version"; "Name"] []]).
Proof.
  intros s w0.
  destruct (empty_filter_still_inserts exampleTempName
              (exampleReadDir (exampleFiles [1; 2; 3]%Z)) (exampleNewMigration [1; 2; 3]%Z)
              s w0
              (isSchemaMigrationNeeded s w0).2
              (getLegacySchemaVersion s (isSchemaMigrationNeeded s w0).2).2
              (createTempSchemaTable exampleTempName s
                 (getLegacySchemaVersion s (isSchemaMigrationNeeded s w0).2).2).2
              0%Z (upMigration <$> [1; 2; 3]%Z))
    as (Hempty & _ & Hrun).
  - vm_compute. reflexivity.
  - vm_compute. reflexivity.
  - vm_compute. reflexivity.
  - repeat constructor.
  - vm_compute. reflexivity.
  - split; [exact Hempty|].
    unfold exampleEnsure. rewrite Hrun. vm_compute. reflexivity.
Defined.

Lemma scanAll_six rows :
  Forall (λ r : Row, length r = 6) rows →
  scanAll rows = inr ((λ r : Row, convertStringPtr <$> r) <$> rows).
Proof.
  induction 1 as [|r rows Hr _ IH]; [done|]. simpl.
  unfold scanSix. rewrite decide_True by done. by rewrite IH.
Qed.

Lemma findDirty_names_present rows data :
  scanAll rows = inr data →
  Forall (λ r : Row, r !! 1 ≠ Some VNull) rows →
  findDirty data =
    Some (bool_decide (Exists (λ r : Row, convertStringPtr <$> r !! 1 = Some (Some "dirty")) rows)).
Proof.
  revert data. induction rows as [|r rows IH]; intros data Hscan Hnames.
  - by injection Hscan as <-.
  - simpl in Hscan. unfold scanSix in Hscan.
    destruct (decide (length r = 6)) as [Hlen|]; [|done].
    destruct (scanAll rows) as [e|data'] eqn:Hrest; [done|].
    injection Hscan as <-.
    apply Forall_cons in Hnames as [Hname Hnames].
    specialize (IH data' eq_refl Hnames).
    destruct r as [|c0 [|name r']]; [done..|].
    simpl.
    destruct name as [|z|b|t]; [done|..]; simpl in *.
    + destruct (String.eqb_spec (pretty z) "dirty") as [Heq|Hne].
      * by rewrite bool_decide_eq_true_2 by (left; simpl; by rewrite Heq).
      * rewrite IH. f_equal. apply bool_decide_ext. rewrite Exists_cons. simpl.
        split; [by right|]. intros [[= ?]|?]; done.
    + destruct (String.eqb_spec (if b then "true" else "false") "dirty") as [Heq|Hne].
      * by destruct b.
      * rewrite IH. f_equal. apply bool_decide_ext. rewrite Exists_cons. simpl.
        split; [by right|]. intros [[= ?]|?]; done.
    + destruct (String.eqb_spec t "dirty") as [Heq|Hne].
      * by rewrite bool_decide_eq_true_2 by (left; simpl; by rewrite Heq).
      * rewrite IH. f_equal. apply bool_decide_ext. rewrite Exists_cons. simpl.
        split; [by right|]. intros [[= ?]|?]; done.
Qed.

Lemma findDirty_skip pre data :
  Forall (λ row : list (option string),
            ∃ name, row !! 1 = Some (Some name) ∧ name ≠ "dirty") pre →
  findDirty (pre ++ data) = findDirty data.
Proof.
  induction 1 as [|row pre (name & Hrow & Hne) _ IH]; [done|]. simpl.
  rewrite Hrow. apply String.eqb_neq in Hne. rewrite Hne, IH.
  by case_decide.
Qed.

(** C10.  The SQLite detector compares [*row[1]] with ["dirty"] without a
    nil check.  Provided the name field of every row the introspection query
    returns is non-NULL, the detector does not panic, and when the rows have
    their six columns it returns whether some row's name is ["dirty"].  The
    precondition is needed: a six-column row with a NULL name that the loop
    reaches (no earlier row is named ["dirty"]) is a nil-pointer
    dereference. *)
Theorem sqlite_detector_total_when_names_not_null :
  (∀ (DB : Type) (B : Backend DB) s (w : World DB) rows d,
     run (PragmaTableInfo (canonicalTable s)) (db w) = (inr rows, d) →
     Forall (λ r : Row, r !! 1 ≠ Some VNull) rows →
     (isSchemaMigrationNeededSQLite s w).1 ≠ Panic
     ∧ (Forall (λ r : Row, length r = 6) rows →
        isSchemaMigrationNeededSQLite s w =
          (Ok (bool_decide
                 (Exists (λ r : Row, convertStringPtr <$> r !! 1 = Some (Some "dirty")) rows)),
           mkWorld d (log w ++ [PragmaTableInfo (canonicalTable s)]))))
  ∧ (∀ (DB : Type) (B : Backend DB) s (w : World DB) pre r rest d,
       run (PragmaTableInfo (canonicalTable s)) (db w) = (inr (pre ++ r :: rest), d) →
       Forall (λ r : Row, length r = 6) (pre ++ r :: rest) →
       Forall (λ r : Row, ∃ name, convertStringPtr <$> r !! 1 = Some (Some name)
                                  ∧ name ≠ "dirty") pre →
       r !! 1 = Some VNull →
       isSchemaMigrationNeededSQLite s w =
         (Panic, mkWorld d (log w ++ [PragmaTableInfo (canonicalTable s)]))).
Proof.
  split.
  - intros DB B s w rows d Hrun Hnames.
    unfold isSchemaMigrationNeededSQLite, bind. rewrite send_unfold, Hrun. cbn [fst snd].
    destruct (scanAll rows) as [e|data] eqn:Hscan.
    + split; [done|]. intros Hsix. by rewrite scanAll_six in Hscan.
    + simpl. rewrite (findDirty_names_present rows data Hscan Hnames). by split.
  - intros DB B s w pre r rest d Hrun Hsix Hpre Hnull.
    unfold isSchemaMigrationNeededSQLite, bind. rewrite send_unfold, Hrun. cbn [fst snd].
    rewrite (scanAll_six _ Hsix). cbn [lift ret]. rewrite fmap_app, findDirty_skip.
    + apply Forall_app in Hsix as [_ [Hlen _]%Forall_cons]. simpl.
      rewrite decide_True by (rewrite length_fmap; lia).
      destruct r as [|c0 [|name r']]; [done..|].
      simpl in Hnull. by injection Hnull as ->.
    + apply Forall_fmap. eapply Forall_impl; [exact Hpre|].
      intros row (name & Hrow & Hne). exists name. simpl.
      by rewrite list_lookup_fmap.
Qed.

Lemma sqlite_detector_total_when_names_not_null_witness :
  let s := storeOf SqliteDBType in
  let column (i : Z) (name : SqlValue) : Row :=
    [VInt i; name; VText "bigint"; VInt 1; VNull; VInt 0] in
  let legacy :=
    start {| answer := inr [column 0%Z (VText "version"); column 1%Z (VText "dirty")] |} in
  let nameless :=
    start {| answer := inr [column 0%Z VNull; column 1%Z (VText "dirty")] |} in
  isSchemaMigrationNeededSQLite s legacy
  = (Ok true, mkWorld (db legacy) [PragmaTableInfo "fb_schema_migrations"])
  ∧ isSchemaMigrationNeededSQLite s nameless
    = (Panic, mkWorld (db nameless) [PragmaTableInfo "fb_schema_migrations"]).
Proof.
  intros s column legacy nameless. split.
  - destruct (proj1 sqlite_detector_total_when_names_not_null Canned _ s legacy
                [column 0%Z (VText "version"); column 1%Z (VText "dirty")] (db legacy))
      as [_ Hok].
    + reflexivity.
    + repeat constructor; discriminate.
    + rewrite Hok by (repeat constructor). vm_compute. reflexivity.
  - rewrite (proj2 sqlite_detector_total_when_names_not_null Canned _ s nameless
               [] (column 0%Z VNull) [column 1%Z (VText "dirty")] (db nameless)).
    + reflexivity.
    + reflexivity.
    + repeat constructor.
    + constructor.
    + reflexivity.
Defined.

(** ** Further properties of the catalogue and the filter *)

Lemma parseAll_parsed newMigration names parsed :
  Forall2 (λ f m, newMigration f = inr m) names parsed →
  parseAll newMigration names = inr (filter (λ m, Direction m = Up) parsed).
Proof.
  induction 1 as [|f m names parsed Hf _ IH]; [done|].
  simpl. rewrite Hf, IH, filter_cons.
  destruct (decide (Direction m = Up)) as [Hup|Hup].
  - by rewrite bool_decide_eq_true_2.
  - by rewrite bool_decide_eq_false_2.
Qed.

Lemma parseAll_unparsable newMigration pre f rest e :
  Forall (λ g, ∃ m, newMigration g = inr m) pre →
  newMigration f = inl e →
  parseAll newMigration (pre ++ f :: rest) = inl e.
Proof.
  intros Hpre Hf. induction Hpre as [|g pre [m Hg] _ IH]; simpl.
  - by rewrite Hf.
  - by rewrite Hg, IH.
Qed.

(** X1.  When the directory lists [names] and every name parses,
    [getEmbeddedMigrations] returns the parsed Up descriptors in listing
    order and nothing else. *)
Theorem getEmbeddedMigrations_lists_up_descriptors
    readDir newMigration names parsed :
  readDir "migrations" = inr names →
  Forall2 (λ f m, newMigration f = inr m) names parsed →
  getEmbeddedMigrations readDir newMigration
  = inr (filter (λ m, Direction m = Up) parsed).
Proof.
  intros Hdir Hparse. unfold getEmbeddedMigrations. rewrite Hdir.
  by apply parseAll_parsed.
Qed.

Lemma getEmbeddedMigrations_lists_up_descriptors_witness :
  getEmbeddedMigrations (exampleReadDir (exampleFiles [2; 1]%Z)) (exampleNewMigration [2; 1]%Z)
  = inr [upMigration 2; upMigration 1].
Proof.
  apply (getEmbeddedMigrations_lists_up_descriptors
           (exampleReadDir (exampleFiles [2; 1]%Z)) (exampleNewMigration [2; 1]%Z)
           (exampleFiles [2; 1]%Z)
           [downMigration 2; upMigration 2; downMigration 1; upMigration 1]).
  - reflexivity.
  - repeat constructor.
Defined.

(** X2.  The first name of the listing that does not parse ends
    [getEmbeddedMigrations] with the parser's error, whatever the names
    after it are; the direction plays no part, so a malformed Down file
    fails the call as well. *)
Theorem getEmbeddedMigrations_first_unparsable_name
    readDir newMigration pre f rest e :
  readDir "migrations" = inr (pre ++ f :: rest) →
  Forall (λ g, ∃ m, newMigration g = inr m) pre →
  newMigration f = inl e →
  getEmbeddedMigrations readDir newMigration = inl e.
Proof.
  intros Hdir Hpre Hf. unfold getEmbeddedMigrations. rewrite Hdir.
  by apply parseAll_unparsable.
Qed.

Lemma getEmbeddedMigrations_first_unparsable_name_witness :
  getEmbeddedMigrations
    (exampleReadDir ["1.up"; "readme.down"; "2.up"]) (exampleNewMigration [1; 2]%Z)
  = inl (ErrAssets "could not parse file").
Proof.
  apply (getEmbeddedMigrations_first_unparsable_name
           (exampleReadDir ["1.up"; "readme.down"; "2.up"]) (exampleNewMigration [1; 2]%Z)
           ["1.up"] "readme.down" ["2.up"]).
  - reflexivity.
  - repeat constructor. by exists (upMigration 1).
  - reflexivity.
Defined.

(** X3.  Filtering twice is filtering once with the smaller legacy version;
    in particular filtering is idempotent, and lowering the legacy version
    only removes entries. *)
Theorem filterMigrations_twice ms V V' :
  filterMigrations (filterMigrations ms V) V' = filterMigrations ms (Z.min V V')
  ∧ filterMigrations (filterMigrations ms V) V = filterMigrations ms V
  ∧ filterMigrations ms (Z.min V V') `sublist_of` filterMigrations ms V.
Proof.
  assert (∀ V', filterMigrations (filterMigrations ms V) V'
                = filterMigrations ms (Z.min V V')) as H.
  { clear V'. intros V'. rewrite !filterMigrations_filter.
    induction ms as [|m ms IH]; [done|].
    rewrite (filter_cons _ m ms), (filter_cons (λ m, _ ∧ (_ ≤ Z.min V V')%Z) m ms).
    destruct (decide (Direction m = Up ∧ (Version m ≤ V)%Z)) as [[Hup Hle]|Hno].
    - rewrite filter_cons, IH.
      destruct (decide (Version m ≤ V')%Z).
      + by rewrite !decide_True by (split; [done|lia]).
      + by rewrite !decide_False by (intros [_ ?]; lia).
    - rewrite IH. rewrite decide_False; [done|].
      intros [Hup Hle]. apply Hno. split; [done|lia]. }
  split; [done|]. split.
  - by rewrite H, Z.min_id.
  - rewrite <-H. rewrite (filterMigrations_filter (filterMigrations ms V)).
    apply sublist_filter.
Qed.

(** ** Further properties that hold for every backend *)

Lemma isSchemaMigrationNeeded_log {DB : Type} `{!Backend DB} s (w : World DB) :
  log (isSchemaMigrationNeeded s w).2 = log w ++ [detectionQuery s].
Proof.
  unfold isSchemaMigrationNeeded, detectionQuery. case_decide.
  - unfold isSchemaMigrationNeededSQLite, bind. rewrite send_unfold.
    destruct (run _ (db w)).1 as [e|rows]; [done|]. simpl.
    destruct (scanAll rows) as [e|data]; [done|]. simpl.
    by destruct (findDirty data).
  - unfold bind. rewrite queryRowScan_unfold. by destruct (scanOne _ _).
Qed.

Lemma useNewSchemaTable_log {DB : Type} `{!Backend DB} temp s (w : World DB) :
  ∃ sent, log (useNewSchemaTable temp s w).2 = log w ++ sent
          ∧ sent `prefix_of` [Rename (renameSyntax s) (canonicalTable s) (oldTempTable s);
                              Rename (renameSyntax s) (tempTable temp s) (canonicalTable s)].
Proof.
  unfold useNewSchemaTable, bind. rewrite exec_unfold.
  destruct (run _ (db w)).1 as [e|r1]; cbn [fst snd].
  - eexists [_]. split; [done|]. by eexists [_].
  - rewrite exec_unfold. cbn [db log]. rewrite <-app_assoc.
    eexists [_; _]. split; [by destruct (run _ _).1|]. by exists [].
Qed.

(** X4.  When the legacy version cannot be read, or the catalogue cannot be
    listed, [EnsureSchemaMigrationFormat] returns that error having sent the
    detection query and the version read only: no table has been created,
    filled or renamed. *)
Theorem catalogue_failure_precedes_every_write
    {DB : Type} `{!Backend DB} temp readDir newMigration s (w0 w1 w2 : World DB) r e :
  isSchemaMigrationNeeded s w0 = (Ok true, w1) →
  getLegacySchemaVersion s w1 = (r, w2) →
  r = Err e ∨ (∃ V, r = Ok V ∧ getEmbeddedMigrations readDir newMigration = inl e) →
  EnsureSchemaMigrationFormat temp readDir newMigration s w0 = (Err e, w2)
  ∧ log w2 = log w0 ++ [detectionQuery s; SelectFrom "version" (canonicalTable s)]
  ∧ Forall (λ q, is_write q = false)
      [detectionQuery s; SelectFrom "version" (canonicalTable s)].
Proof.
  intros H1 H2 Hr. split; [|split].
  - rewrite Ensure_cascade, H1, H2.
    destruct Hr as [->|(V & -> & ->)]; done.
  - pose proof (isSchemaMigrationNeeded_log s w0) as Hl1. rewrite H1 in Hl1.
    unfold getLegacySchemaVersion in H2. rewrite queryRowScan_unfold in H2.
    injection H2 as _ <-. cbn [snd log] in *. by rewrite Hl1, <-app_assoc.
  - repeat constructor. unfold detectionQuery. by case_decide.
Qed.

Lemma catalogue_failure_precedes_every_write_witness :
  let s := storeOf MysqlDBType in
  let w0 := start (legacyDatabase MysqlDBType "boards" 3) in
  let unreadable (_ : string) : error + list string := inl (ErrAssets "no such directory") in
  EnsureSchemaMigrationFormat exampleTempName unreadable (exampleNewMigration []) s w0
  = (Err (ErrAssets "no such directory"),
     mkWorld (db w0) [columnCountQuery s; SelectFrom "version" "fb_schema_migrations"]).
Proof.
  intros s w0 unreadable.
  destruct (catalogue_failure_precedes_every_write exampleTempName unreadable
              (exampleNewMigration []) s w0
              (isSchemaMigrationNeeded s w0).2
              (getLegacySchemaVersion s (isSchemaMigrationNeeded s w0).2).2
              (Ok 3%Z) (ErrAssets "no such directory")) as (Hres & _ & _).
  - vm_compute. reflexivity.
  - vm_compute. reflexivity.
  - right. by exists 3%Z.
  - rewrite Hres. vm_compute. reflexivity.
Defined.

Lemma Ensure_log_prefix
    {DB : Type} `{!Backend DB} temp readDir newMigration s (w : World DB) :
  ∃ values sent,
    log (EnsureSchemaMigrationFormat temp readDir newMigration s w).2 = log w ++ sent
    ∧ sent `prefix_of`
        [detectionQuery s;
         SelectFrom "version" (canonicalTable s);
         CreateTableIfNotExists (tempTable temp s) tempColumns "Version";
         InsertValues (tempTable temp s) ["Version"; "Name"] values;
         Rename (renameSyntax s) (canonicalTable s) (oldTempTable s);
         Rename (renameSyntax s) (tempTable temp s) (canonicalTable s)].
Proof.
  rewrite Ensure_cascade.
  pose proof (isSchemaMigrationNeeded_log s w) as Hl1.
  destruct (isSchemaMigrationNeeded s w) as [[[|]|e|] w1]; cbn [snd] in *;
    [|by exists [], [detectionQuery s]; split; [|eexists]..].
  unfold getLegacySchemaVersion. rewrite queryRowScan_unfold.
  destruct (scanOne _ _) as [e|V];
    [exists [], [detectionQuery s; SelectFrom "version" (canonicalTable s)];
     cbn [snd log]; rewrite Hl1, <-app_assoc; split; [done|by eexists]|].
  destruct (getEmbeddedMigrations readDir newMigration) as [e|ms];
    [exists [], [detectionQuery s; SelectFrom "version" (canonicalTable s)];
     cbn [snd log]; rewrite Hl1, <-app_assoc; split; [done|by eexists]|].
  exists (migrationRow <$> filterMigrations ms V).
  unfold createTempSchemaTable, populateTempSchemaTable. rewrite exec_unfold.
  destruct (run _ _).1 as [e|r3]; cbn [fst snd db log];
    [eexists [_; _; _]; rewrite Hl1, <-!app_assoc; split; [done|by eexists]|].
  rewrite exec_unfold.
  destruct (run (InsertValues _ _ _) _).1 as [e|r4]; cbn [fst snd db log];
    [eexists [_; _; _; _]; rewrite Hl1, <-!app_assoc; split; [done|by eexists]|].
  match goal with
  | |- context [useNewSchemaTable temp s ?w4] =>
      destruct (useNewSchemaTable_log temp s w4) as (sent & Hsent & Hpre)
  end.
  rewrite Hsent. cbn [log]. rewrite Hl1, <-!app_assoc.
  eexists. split; [done|]. simpl. by do 4 apply prefix_cons.
Qed.

(** X5.  Whatever the backend answers, the statements one call of
    [EnsureSchemaMigrationFormat] sends are an initial part of: detection
    query, version read, create temp table, insert into the temp table,
    rename canonical to backup, rename temp to canonical.  Nothing is sent
    twice or out of this order.  The step that fails is the last one sent
    and its error is the result: a failed detection or a negative verdict
    ends the call after the detection query, a failed version read or
    catalogue listing after the version read, and an error answered to the
    create, the insert or the first rename after that statement; the call
    succeeds after all six only when the second rename is answered without
    error. *)
Theorem Ensure_sends_steps_in_order
    {DB : Type} `{!Backend DB} temp readDir newMigration s (w : World DB) :
  let detect := detectionQuery s in
  let read := SelectFrom "version" (canonicalTable s) in
  let create := CreateTableIfNotExists (tempTable temp s) tempColumns "Version" in
  let insert values := InsertValues (tempTable temp s) ["Version"; "Name"] values in
  let first := Rename (renameSyntax s) (canonicalTable s) (oldTempTable s) in
  let second := Rename (renameSyntax s) (tempTable temp s) (canonicalTable s) in
  let result := EnsureSchemaMigrationFormat temp readDir newMigration s w in
  let sent := drop (length (log w)) (log result.2) in
  (∃ values, sent `prefix_of` [detect; read; create; insert values; first; second])
  ∧ (result.1, sent) =
      match isSchemaMigrationNeeded s w with
      | (Ok false, _) => (Ok tt, [detect])
      | (Err e, _) => (Err e, [detect])
      | (Panic, _) => (Panic, [detect])
      | (Ok true, w1) =>
          match getLegacySchemaVersion s w1 with
          | (Err e, _) => (Err e, [detect; read])
          | (Panic, _) => (Panic, [detect; read])
          | (Ok V, w2) =>
              match getEmbeddedMigrations readDir newMigration with
              | inl e => (Err e, [detect; read])
              | inr ms =>
                  let values := migrationRow <$> filterMigrations ms V in
                  match run create (db w2) with
                  | (inl e, _) => (Err e, [detect; read; create])
                  | (inr _, d3) =>
                      match run (insert values) d3 with
                      | (inl e, _) => (Err e, [detect; read; create; insert values])
                      | (inr _, d4) =>
                          match run first d4 with
                          | (inl e, _) =>
                              (Err e, [detect; read; create; insert values; first])
                          | (inr _, d5) =>
                              (match run second d5 with
                               | (inl e, _) => Err e
                               | (inr _, _) => Ok tt
                               end,
                               [detect; read; create; insert values; first; second])
                          end
                      end
                  end
              end
          end
      end.
Proof.
  intros detect read create insert first second result sent. split.
  - destruct (Ensure_log_prefix temp readDir newMigration s w)
      as (values & l & Hlog & Hpre).
    exists values. unfold sent, result. by rewrite Hlog, drop_app_length.
  - unfold sent, result. rewrite Ensure_cascade.
    pose proof (isSchemaMigrationNeeded_log s w) as Hl1.
    destruct (isSchemaMigrationNeeded s w) as [[[|]|e|] w1]; cbn [fst snd] in *;
      [|by rewrite Hl1, drop_app_length..].
    unfold getLegacySchemaVersion. rewrite queryRowScan_unfold.
    destruct (scanOne _ _) as [e|V]; cbn [fst snd log];
      [by rewrite Hl1, <-app_assoc, drop_app_length|].
    destruct (getEmbeddedMigrations readDir newMigration) as [e|ms]; cbn [fst snd log];
      [by rewrite Hl1, <-app_assoc, drop_app_length|].
    unfold createTempSchemaTable, populateTempSchemaTable, useNewSchemaTable, bind.
    rewrite exec_unfold. cbn [db log]. fold create.
    destruct (run create _) as [[e|r3] d3]; cbn [fst snd db log];
      [by rewrite Hl1, <-!app_assoc, drop_app_length|].
    rewrite exec_unfold. cbn [db log]. fold (insert (migrationRow <$> filterMigrations ms V)).
    destruct (run (insert _) d3) as [[e|r4] d4]; cbn [fst snd db log];
      [by rewrite Hl1, <-!app_assoc, drop_app_length|].
    rewrite exec_unfold. cbn [db log]. fold first.
    destruct (run first d4) as [[e|r5] d5]; cbn [fst snd db log];
      [by rewrite Hl1, <-!app_assoc, drop_app_length|].
    rewrite exec_unfold. cbn [db log]. fold second.
    destruct (run second d5) as [[e|r6] d6]; cbn [fst snd db log];
      by rewrite Hl1, <-!app_assoc, drop_app_length.
Qed.

(** A backup table is in the way: the call ends at the first rename. *)
Lemma Ensure_sends_steps_in_order_witness :
  let s := storeOf SqliteDBType in
  let d := {| kind := SqliteDBType; current_schema := "main";
              tables := {[ ("main", "fb_schema_migrations") := legacyTable 2 false;
                           ("main", "fb_schema_migrations_old_temp") := legacyTable 1 true ]} |} in
  ((exampleEnsure [1; 2; 3]%Z s (start d)).1,
   drop (length (log (start d))) (log (exampleEnsure [1; 2; 3]%Z s (start d)).2))
  = (Err (ErrDriver "table already exists"),
     [PragmaTableInfo "fb_schema_migrations";
      SelectFrom "version" "fb_schema_migrations";
      CreateTableIfNotExists "fb_temp_schema_migration" tempColumns "Version";
      InsertValues "fb_temp_schema_migration" ["Version"; "Name"]
        [[VInt 1; VText "m1"]; [VInt 2; VText "m2"]];
      Rename AlterTableRenameTo "fb_schema_migrations" "fb_schema_migrations_old_temp"]).
Proof.
  intros s d.
  destruct (Ensure_sends_steps_in_order exampleTempName
              (exampleReadDir (exampleFiles [1; 2; 3]%Z)) (exampleNewMigration [1; 2; 3]%Z)
              s (start d)) as [_ Hsent].
  etrans; [exact Hsent|]. vm_compute. reflexivity.
Defined.

Lemma scanAll_short rows :
  Exists (λ r : Row, length r ≠ 6) rows →
  scanAll rows = inl (ErrScan "wrong number of destination arguments").
Proof.
  induction rows as [|r rows IH]; intros Hex; [by apply Exists_nil in Hex|].
  simpl. unfold scanSix. destruct (decide (length r = 6)) as [Hlen|]; [|done].
  apply Exists_cons in Hex as [?|Hex]; [done|]. by rewrite IH.
Qed.

(** X6.  The SQLite detector scans every returned row before it looks at
    any name: if some row does not have six columns the result is the scan
    error, whether or not another row is named ["dirty"] or has a NULL
    name. *)
Theorem sqlite_detector_scans_before_searching
    {DB : Type} `{!Backend DB} s (w : World DB) rows d :
  run (PragmaTableInfo (canonicalTable s)) (db w) = (inr rows, d) →
  Exists (λ r : Row, length r ≠ 6) rows →
  isSchemaMigrationNeededSQLite s w
  = (Err (ErrScan "wrong number of destination arguments"),
     mkWorld d (log w ++ [PragmaTableInfo (canonicalTable s)])).
Proof.
  intros Hrun Hshort. unfold isSchemaMigrationNeededSQLite, bind.
  rewrite send_unfold, Hrun. cbn [fst snd]. by rewrite (scanAll_short _ Hshort).
Qed.

Lemma sqlite_detector_scans_before_searching_witness :
  let s := storeOf SqliteDBType in
  let rows := [[VInt 0; VText "dirty"; VText "boolean"; VInt 1; VNull; VInt 0];
               [VInt 1; VNull]] in
  isSchemaMigrationNeededSQLite s (start {| answer := inr rows |})
  = (Err (ErrScan "wrong number of destination arguments"),
     mkWorld {| answer := inr rows |} [PragmaTableInfo "fb_schema_migrations"]).
Proof.
  intros s rows.
  apply (sqlite_detector_scans_before_searching s (start {| answer := inr rows |}) rows).
  - reflexivity.
  - apply Exists_cons. right. apply Exists_cons. left. discriminate.
Defined.

(** ** Further properties on the reference backend *)

Lemma ref_run_frame q (d : Database) :
  kind (run q d).2 = kind d
  ∧ current_schema (run q d).2 = current_schema d
  ∧ ∀ key, (∀ n, n ∈ targets q → key ≠ here d n) →
           tables (run q d).2 !! key = tables d !! key.
Proof.
  destruct q; simpl; repeat case_match; simpl; repeat split; try done; intros key Hkey.
  - rewrite lookup_insert_ne; [done|]. intros <-. eapply Hkey; [|done]. by left.
  - rewrite lookup_insert_ne; [done|]. intros <-. eapply Hkey; [|done]. by left.
  - rewrite lookup_insert_ne, lookup_delete_ne; [done| |].
    + intros <-. eapply Hkey; [|done]. by left.
    + intros <-. eapply Hkey; [|done]. right. by left.
  - rewrite lookup_delete_ne; [done|]. intros <-. eapply Hkey; [|done]. by left.
Qed.

Lemma touchesOnly_ret {A} names (a : A) : touchesOnly names (ret a).
Proof. by intros w. Qed.

Lemma touchesOnly_lift {A} names (r : error + A) : touchesOnly names (lift r).
Proof. intros w. by destruct r. Qed.

Lemma touchesOnly_bind {A B} names (m : M Database A) (k : A → M Database B) :
  touchesOnly names m → (∀ a, touchesOnly names (k a)) → touchesOnly names (bind m k).
Proof.
  intros Hm Hk w. unfold bind. destruct (Hm w) as (Hkind & Hcur & Hkeys).
  destruct (m w) as [[a|e|] w1]; cbn [snd] in *; [|done..].
  destruct (Hk a w1) as (Hkind' & Hcur' & Hkeys').
  split; [congruence|]. split; [congruence|].
  intros key Hkey. rewrite Hkeys'; [by apply Hkeys|].
  intros n Hn. unfold here. rewrite Hcur. by apply Hkey.
Qed.

Lemma touchesOnly_send names q :
  targets q ⊆ names → touchesOnly names (send q).
Proof.
  intros Hsub w. rewrite send_unfold. cbn [snd db].
  destruct (ref_run_frame q (db w)) as (Hkind & Hcur & Hkeys).
  split; [done|]. split; [done|].
  intros key Hkey. apply Hkeys. intros n Hn. apply Hkey. by apply Hsub.
Qed.

Lemma touchesOnly_exec names q :
  targets q ⊆ names → touchesOnly names (exec q).
Proof.
  intros Hsub. apply touchesOnly_bind; [by apply touchesOnly_send|].
  intros; apply touchesOnly_ret.
Qed.

Lemma touchesOnly_read {A} names (m : M Database A) :
  (∀ w, db (m w).2 = db w) → touchesOnly names m.
Proof. intros Hm w. by rewrite Hm. Qed.

Ltac listed_names :=
  let x := fresh "x" in
  let Hx := fresh "Hx" in
  simpl; intros x Hx;
  repeat (apply elem_of_cons in Hx as [->|Hx]; [rewrite !elem_of_cons; tauto|]);
  by apply elem_of_nil in Hx.

(** X7.  On the reference backend one call of
    [EnsureSchemaMigrationFormat], whatever its outcome, keeps the dialect
    and the current schema of the connection and every table other than the
    canonical, temp and backup tables of the current schema. *)
Theorem Ensure_touches_three_tables
    temp readDir newMigration s (w : World Database) key :
  key ≠ here (db w) (canonicalTable s) →
  key ≠ here (db w) (tempTable temp s) →
  key ≠ here (db w) (oldTempTable s) →
  let after := db (EnsureSchemaMigrationFormat temp readDir newMigration s w).2 in
  kind after = kind (db w)
  ∧ current_schema after = current_schema (db w)
  ∧ tables after !! key = tables (db w) !! key.
Proof.
  intros Hc Ht Ho after.
  assert (touchesOnly [canonicalTable s; tempTable temp s; oldTempTable s]
            (EnsureSchemaMigrationFormat temp readDir newMigration s)) as Hframe.
  { unfold EnsureSchemaMigrationFormat.
    apply touchesOnly_bind.
    { apply touchesOnly_read. intros w'. by rewrite isSchemaMigrationNeeded_ref. }
    intros [|]; simpl; [|apply touchesOnly_ret].
    apply touchesOnly_bind.
    { apply touchesOnly_read. intros w'. by rewrite getLegacySchemaVersion_ref. }
    intros V. apply touchesOnly_bind; [apply touchesOnly_lift|intros ms].
    apply touchesOnly_bind; [apply touchesOnly_exec; listed_names|intros _].
    apply touchesOnly_bind; [apply touchesOnly_exec; listed_names|intros _].
    apply touchesOnly_bind; [|intros _]; apply touchesOnly_exec; listed_names. }
  destruct (Hframe w) as (Hkind & Hcur & Hkeys).
  split; [done|]. split; [done|]. apply Hkeys.
  intros n Hn. repeat (apply elem_of_cons in Hn as [->|Hn]; [done|]).
  by apply elem_of_nil in Hn.
Qed.

Lemma Ensure_touches_three_tables_witness :
  let s := storeOf SqliteDBType in
  let w := start sharedDatabase in
  (exampleEnsure [1; 2; 3]%Z s w).1 = Ok tt
  ∧ tables (db (exampleEnsure [1; 2; 3]%Z s w).2) !! ("main", "fb_blocks")
    = tables sharedDatabase !! ("main", "fb_blocks").
Proof.
  intros s w. split; [vm_compute; reflexivity|].
  apply (Ensure_touches_three_tables exampleTempName
           (exampleReadDir (exampleFiles [1; 2; 3]%Z)) (exampleNewMigration [1; 2; 3]%Z)
           s w ("main", "fb_blocks")); discriminate.
Defined.

(** X8.  When no table bearing the canonical name, in any schema, has a
    column named [dirty] (a fresh database, or one already in the new
    format), and the store's dialect is SQLite exactly when the backend is,
    [EnsureSchemaMigrationFormat] returns no error, sends the detection query
    only and leaves the database as it is. *)
Theorem Ensure_is_noop_without_dirty_column
    temp readDir newMigration s (w : World Database) :
  (dbType s = SqliteDBType ↔ kind (db w) = SqliteDBType) →
  (∀ key T, tables (db w) !! key = Some T → key.2 = canonicalTable s →
            "dirty" ∉ colnames T) →
  EnsureSchemaMigrationFormat temp readDir newMigration s w
  = (Ok tt, mkWorld (db w) (log w ++ [detectionQuery s])).
Proof.
  intros Hkind Hclean. apply Ensure_not_needed.
  destruct (decide (dbType s = SqliteDBType)) as [Hs|Hs].
  - rewrite verdict_sqlite by tauto.
    destruct (tables (db w) !! here (db w) (canonicalTable s)) as [T|] eqn:HT; [|done].
    simpl. by rewrite bool_decide_eq_false_2 by (by eapply Hclean).
  - apply verdict_count_zero; [done|tauto|].
    apply count_columns_zero. intros key T Hkey. apply table_count_zero.
    destruct (decide (key.2 = canonicalTable s)); [|by left].
    right; right. by eapply Hclean.
Qed.

Lemma Ensure_is_noop_without_dirty_column_witness :
  let s := storeOf PostgresDBType in
  let w := start (migratedDatabase PostgresDBType "public") in
  exampleEnsure [1; 2]%Z s w = (Ok tt, mkWorld (db w) [columnCountQuery s]).
Proof.
  intros s w.
  apply (Ensure_is_noop_without_dirty_column exampleTempName
           (exampleReadDir (exampleFiles [1; 2]%Z)) (exampleNewMigration [1; 2]%Z) s w).
  - split; discriminate.
  - intros key T Hkey _. unfold w, start, migratedDatabase in Hkey. cbn [db tables] in Hkey.
    apply lookup_singleton_Some in Hkey as [_ <-].
    change ("dirty" ∉ ["Version"; "Name"]).
    rewrite !not_elem_of_cons. split_and!; [done..|apply not_elem_of_nil].
Defined.

(** X9.  With an SQLite store on an SQLite backend the detector answers
    whether the canonical table of the current schema exists and has a
    column named [dirty]; a missing table gives false, never an error, and
    the database is not changed. *)
Theorem sqlite_detector_verdict s (w : World Database) :
  dbType s = SqliteDBType → kind (db w) = SqliteDBType →
  isSchemaMigrationNeeded s w
  = (Ok match tables (db w) !! here (db w) (canonicalTable s) with
        | Some T => bool_decide ("dirty" ∈ colnames T)
        | None => false
        end,
     mkWorld (db w) (log w ++ [PragmaTableInfo (canonicalTable s)])).
Proof.
  intros Hs Hd. rewrite isSchemaMigrationNeeded_ref, verdict_sqlite by done.
  unfold detectionQuery. rewrite decide_True by done.
  by destruct (tables (db w) !! _).
Qed.

Lemma sqlite_detector_verdict_witness :
  let s := storeOf SqliteDBType in
  isSchemaMigrationNeeded s (start sharedDatabase)
  = (Ok true, mkWorld sharedDatabase [PragmaTableInfo "fb_schema_migrations"])
  ∧ isSchemaMigrationNeeded s (start (set_tables sharedDatabase ∅))
    = (Ok false, mkWorld (set_tables sharedDatabase ∅) [PragmaTableInfo "fb_schema_migrations"]).
Proof.
  intros s. split.
  - rewrite (sqlite_detector_verdict s (start sharedDatabase) eq_refl eq_refl).
    vm_compute. reflexivity.
  - rewrite (sqlite_detector_verdict s (start (set_tables sharedDatabase ∅)) eq_refl eq_refl).
    vm_compute. reflexivity.
Defined.

Lemma count_columns_single (eqs : list (string * string))
    (ts : gmap (string * string) Table) k :
  (∀ key T, ts !! key = Some T → key ≠ k → table_count eqs key T = 0) →
  count_columns eqs ts = from_option (table_count eqs k) 0 (ts !! k).
Proof.
  unfold count_columns.
  apply (map_fold_weak_ind
           (λ r (m : gmap (string * string) Table),
              (∀ key T, m !! key = Some T → key ≠ k → table_count eqs key T = 0) →
              r = from_option (table_count eqs k) 0 (m !! k))).
  - done.
  - intros key T m r Hnone IH Hall.
    assert (r = from_option (table_count eqs k) 0 (m !! k)) as ->.
    { apply IH. intros key' T' Hl. apply Hall.
      rewrite lookup_insert_ne; [done|]. intros ->. congruence. }
    destruct (decide (key = k)) as [->|Hne].
    + rewrite lookup_insert_eq, Hnone. simpl. lia.
    + rewrite lookup_insert_ne by done.
      rewrite (Hall key T) by (by rewrite ?lookup_insert_eq). done.
Qed.

Lemma count_columns_delete (eqs : list (string * string))
    (ts : gmap (string * string) Table) k T :
  ts !! k = Some T →
  count_columns eqs ts = table_count eqs k T + count_columns eqs (delete k ts).
Proof.
  intros Hk. unfold count_columns.
  apply (map_fold_delete_L (λ key T acc, table_count eqs key T + acc)); [|done].
  intros. lia.
Qed.

Lemma verdict_true_iff s d :
  dbType s ≠ SqliteDBType → kind d ≠ SqliteDBType →
  (isSchemaMigrationNeeded s (start d)).1 = Ok true
  ↔ count_columns ([("TABLE_NAME", canonicalTable s); ("COLUMN_NAME", "dirty")]
                   ++ schemaCondition s) (tables d) = 1.
Proof.
  intros Hs Hd. unfold isSchemaMigrationNeeded. rewrite decide_False by done.
  unfold bind. rewrite queryRowScan_unfold. simpl.
  rewrite decide_False by done. unfold columnCountQuery.
  pose proof (known_conditions s) as Hk. simpl in Hk. rewrite Hk. simpl.
  unfold in_range. destruct (_ && _) eqn:Hrange; simpl.
  - split.
    + intros [= Heq]. apply Z.eqb_eq in Heq. lia.
    + intros ->. done.
  - split; [done|]. intros Heq. rewrite Heq in Hrange. done.
Qed.

Lemma dirty_row_matches s sch c :
  schemaSelected s sch →
  (view_row_matches ([("TABLE_NAME", canonicalTable s); ("COLUMN_NAME", "dirty")]
                     ++ schemaCondition s) sch (canonicalTable s) c = true
   ↔ c = "dirty").
Proof.
  intros Hsel. unfold view_row_matches. rewrite forallb_app. simpl.
  unfold view_field at 1 2. simpl.
  rewrite bool_decide_eq_true_2 by done. simpl.
  assert (forallb (λ e, bool_decide (view_field e.1 sch (canonicalTable s) c = Some e.2))
            (schemaCondition s) = true) as ->.
  { unfold schemaCondition, schemaSelected in *.
    destruct (dbType s); simpl; try done;
      unfold view_field; simpl; rewrite Hsel; by rewrite bool_decide_eq_true_2. }
  rewrite !andb_true_r. rewrite bool_decide_eq_true. split; [by intros [= ->]|by intros ->].
Qed.

Lemma table_count_dirty s key T :
  key.2 = canonicalTable s → schemaSelected s key.1 →
  table_count ([("TABLE_NAME", canonicalTable s); ("COLUMN_NAME", "dirty")]
               ++ schemaCondition s) key T
  = length (filter (λ c, c = "dirty") (colnames T)).
Proof.
  intros Hname Hsel. unfold table_count. f_equal. rewrite Hname.
  apply list_filter_iff. intros c. by apply dirty_row_matches.
Qed.

Lemma dirty_filter_pos (cs : list string) :
  "dirty" ∈ cs → (1 ≤ length (filter (λ c, c = "dirty") cs))%nat.
Proof.
  induction cs as [|c cs IH]; [by intros ?%elem_of_nil|].
  rewrite filter_cons. intros [<-|Hin]%elem_of_cons.
  - rewrite decide_True by done. simpl. lia.
  - specialize (IH Hin). case_decide; simpl; lia.
Qed.

(** X10.  With a MySQL store the detector answers true exactly when the
    canonical table of the schema named in the store's configuration has one
    column named [dirty]: tables of that name in other schemas, and the
    connection's current schema, play no part. *)
Theorem mysql_detector_reads_configured_schema s (d : Database) :
  dbType s = MysqlDBType → kind d ≠ SqliteDBType →
  (isSchemaMigrationNeeded s (start d)).1 = Ok true
  ↔ dirtyCount (tables d !! (schemaName s, canonicalTable s)) = 1.
Proof.
  intros Hs Hd. rewrite verdict_true_iff by (by rewrite ?Hs).
  rewrite (count_columns_single _ _ (schemaName s, canonicalTable s)).
  - unfold dirtyCount.
    destruct (tables d !! (schemaName s, canonicalTable s)) as [T|]; [|done].
    cbn [from_option].
    rewrite table_count_dirty; [done..|]. unfold schemaSelected. by rewrite Hs.
  - intros [sch tbl] T _ Hne. apply table_count_zero. simpl.
    destruct (decide (tbl = canonicalTable s)) as [->|]; [|by left].
    right; left. unfold schemaSelected. rewrite Hs. by intros ->.
Qed.

Lemma mysql_detector_reads_configured_schema_witness :
  let s := storeOf MysqlDBType in
  let d := legacyDatabase MysqlDBType "elsewhere" 4 in
  current_schema d ≠ schemaName s
  ∧ dirtyCount (tables d !! (schemaName s, canonicalTable s)) ≠ 1
  ∧ (isSchemaMigrationNeeded s (start d)).1 ≠ Ok true.
Proof.
  intros s d. split; [discriminate|].
  assert (dirtyCount (tables d !! (schemaName s, canonicalTable s)) ≠ 1) as Hcount
    by (vm_compute; discriminate).
  split; [exact Hcount|].
  intros Htrue. apply Hcount.
  by apply (mysql_detector_reads_configured_schema s d eq_refl).
Defined.

(** X11.  With a store of no known dialect the metadata query has no schema
    condition: when two tables bearing the canonical name, in different
    schemas, each have a column named [dirty], the count is not 1 and the
    detector does not answer true. *)
Theorem generic_detector_counts_every_schema s (d : Database) k1 k2 T1 T2 :
  dbType s = OtherDBType → kind d ≠ SqliteDBType →
  k1 ≠ k2 →
  tables d !! k1 = Some T1 → k1.2 = canonicalTable s → "dirty" ∈ colnames T1 →
  tables d !! k2 = Some T2 → k2.2 = canonicalTable s → "dirty" ∈ colnames T2 →
  (isSchemaMigrationNeeded s (start d)).1 ≠ Ok true.
Proof.
  intros Hs Hd Hne H1 Hn1 Hd1 H2 Hn2 Hd2.
  rewrite verdict_true_iff by (by rewrite ?Hs).
  rewrite (count_columns_delete _ _ k1 T1 H1).
  rewrite (count_columns_delete _ _ k2 T2) by (by rewrite lookup_delete_ne).
  rewrite !table_count_dirty by (try done; unfold schemaSelected; by rewrite Hs).
  pose proof (dirty_filter_pos _ Hd1). pose proof (dirty_filter_pos _ Hd2). lia.
Qed.

Lemma generic_detector_counts_every_schema_witness :
  let s := storeOf OtherDBType in
  let d := {| kind := OtherDBType; current_schema := "a";
              tables := {[ ("a", "fb_schema_migrations") := legacyTable 1 false;
                           ("b", "fb_schema_migrations") := legacyTable 2 false ]} |} in
  (isSchemaMigrationNeeded s (start d)).1 ≠ Ok true.
Proof.
  intros s d.
  apply (generic_detector_counts_every_schema s d
           ("a", "fb_schema_migrations") ("b", "fb_schema_migrations")
           (legacyTable 1 false) (legacyTable 2 false)).
  - reflexivity.
  - discriminate.
  - discriminate.
  - vm_compute. reflexivity.
  - reflexivity.
  - apply elem_of_cons. right. apply elem_of_cons. by left.
  - vm_compute. reflexivity.
  - reflexivity.
  - apply elem_of_cons. right. apply elem_of_cons. by left.
Defined.

Lemma rename_ref_ok syn a b (d : Database) T :
  (syn = RenameTableTo → kind d = MysqlDBType) →
  tables d !! here d a = Some T → tables d !! here d b = None →
  run (Rename syn a b) d
  = (inr [], set_tables d (<[here d b := T]> (delete (here d a) (tables d)))).
Proof.
  intros Hsyn Ha Hb. simpl. rewrite Ha, Hb.
  destruct (decide (syn = RenameTableTo)) as [Heq|Hne].
  - by rewrite (bool_decide_eq_true_2 (kind d = MysqlDBType)), andb_false_r by auto.
  - by rewrite (bool_decide_eq_false_2 (syn = RenameTableTo)).
Qed.

Lemma rename_ref_missing syn a b (d : Database) :
  (syn = RenameTableTo → kind d = MysqlDBType) →
  tables d !! here d a = None →
  run (Rename syn a b) d = (inl (ErrDriver "no such table"), d).
Proof.
  intros Hsyn Ha. simpl. rewrite Ha.
  destruct (decide (syn = RenameTableTo)) as [Heq|Hne].
  - by rewrite (bool_decide_eq_true_2 (kind d = MysqlDBType)), andb_false_r by auto.
  - by rewrite (bool_decide_eq_false_2 (syn = RenameTableTo)).
Qed.

Lemma rename_ref_taken syn a b (d : Database) T :
  tables d !! here d b = Some T →
  ∃ e, run (Rename syn a b) d = (inl e, d).
Proof. intros Hb. simpl. rewrite Hb. repeat case_match; eauto. Qed.

Lemma renameSyntax_accepted s (d : Database) :
  (dbType s = MysqlDBType → kind d = MysqlDBType) →
  renameSyntax s = RenameTableTo → kind d = MysqlDBType.
Proof. unfold renameSyntax. case_decide; [auto|done]. Qed.

(** X12.  The swap does not undo its first rename.  When the canonical table
    exists, the backup name is free and there is no temp table,
    [useNewSchemaTable] renames the canonical table to the backup name and
    then fails on the second rename: it returns an error and leaves the
    canonical name without a table. *)
Theorem swap_without_temp_table_vacates_canonical_name
    temp s (w : World Database) T :
  temp ≠ "schema_migrations_old_temp" →
  (dbType s = MysqlDBType → kind (db w) = MysqlDBType) →
  tables (db w) !! here (db w) (canonicalTable s) = Some T →
  tables (db w) !! here (db w) (oldTempTable s) = None →
  tables (db w) !! here (db w) (tempTable temp s) = None →
  ∃ w', useNewSchemaTable temp s w = (Err (ErrDriver "no such table"), w')
        ∧ tables (db w') !! here (db w) (canonicalTable s) = None
        ∧ tables (db w') !! here (db w) (oldTempTable s) = Some T
        ∧ log w' = log w ++ [Rename (renameSyntax s) (canonicalTable s) (oldTempTable s);
                             Rename (renameSyntax s) (tempTable temp s) (canonicalTable s)].
Proof.
  intros Hn Hdialect Hc Ho Ht.
  pose proof (renameSyntax_accepted s (db w) Hdialect) as Hsyn.
  unfold useNewSchemaTable, bind. rewrite exec_unfold.
  rewrite (rename_ref_ok _ _ _ _ T Hsyn Hc Ho). cbn [fst snd].
  rewrite exec_unfold. cbn [db log].
  rewrite rename_ref_missing.
  - cbn [fst snd]. eexists. split; [done|]. cbn [db tables set_tables].
    split; [|split].
    + rewrite lookup_insert_ne, lookup_delete_eq; [done|].
      intros [= ?]. by eapply canonical_ne_backup.
    + by rewrite lookup_insert_eq.
    + by rewrite <-app_assoc.
  - done.
  - rewrite here_set_tables. cbn [tables set_tables].
    rewrite lookup_insert_ne by (intros [= ?]; by eapply backup_ne_temp).
    rewrite lookup_delete.  by case_decide.
Qed.

Lemma swap_without_temp_table_vacates_canonical_name_witness :
  let s := storeOf PostgresDBType in
  let w := start (legacyDatabase PostgresDBType "public" 3) in
  (useNewSchemaTable exampleTempName s w).1 = Err (ErrDriver "no such table")
  ∧ map_to_list (tables (db (useNewSchemaTable exampleTempName s w).2))
    = [(("public", "fb_schema_migrations_old_temp"), legacyTable 3 false)].
Proof.
  intros s w.
  destruct (swap_without_temp_table_vacates_canonical_name exampleTempName s w
              (legacyTable 3 false)) as (w' & Hrun & _).
  - done.
  - discriminate.
  - vm_compute. reflexivity.
  - vm_compute. reflexivity.
  - vm_compute. reflexivity.
  - rewrite Hrun. split; [reflexivity|]. rewrite <-Hrun. vm_compute. reflexivity.
Defined.

Lemma Ensure_backup_taken temp readDir newMigration s (w0 : World Database) Tb :
  temp ≠ "schema_migrations" → temp ≠ "schema_migrations_old_temp" →
  (isSchemaMigrationNeeded s w0).1 = Ok true →
  tables (db w0) !! here (db w0) (oldTempTable s) = Some Tb →
  let after := EnsureSchemaMigrationFormat temp readDir newMigration s w0 in
  after.1 ≠ Ok tt
  ∧ tables (db after.2) !! here (db w0) (canonicalTable s)
    = tables (db w0) !! here (db w0) (canonicalTable s)
  ∧ tables (db after.2) !! here (db w0) (oldTempTable s) = Some Tb.
Proof.
  intros Hn1 Hn2 Hneed Hb after. unfold after. clear after.
  assert (here (db w0) (tempTable temp s) ≠ here (db w0) (canonicalTable s)) as Htc
    by (intros [= ?]; by eapply canonical_ne_temp).
  assert (here (db w0) (tempTable temp s) ≠ here (db w0) (oldTempTable s)) as Hto
    by (intros [= ?]; by eapply backup_ne_temp).
  rewrite Ensure_cascade.
  rewrite isSchemaMigrationNeeded_ref in Hneed |- *. cbn [fst] in Hneed. rewrite Hneed.
  rewrite getLegacySchemaVersion_ref. cbn [db log].
  destruct (getLegacySchemaVersion s (start (db w0))).1 as [V|e|]; [|done..].
  destruct (getEmbeddedMigrations readDir newMigration) as [e|ms]; [done|].
  rewrite createTempSchemaTable_ref. cbn [db log].
  destruct (populateTempSchemaTable temp s _ _) as [[[]|e|] w4] eqn:Hpop.
  - apply populateTempSchemaTable_ref_ok in Hpop as (_ & T0 & T1 & _ & _ & ->).
    cbn [db log] in *. rewrite ?here_set_tables in *. cbn [tables set_tables] in *.
    unfold useNewSchemaTable, bind. rewrite exec_unfold. cbn [db log].
    edestruct (rename_ref_taken (renameSyntax s) (canonicalTable s) (oldTempTable s))
      as [e Hrun]; [|rewrite Hrun].
    { rewrite here_set_tables. cbn [tables set_tables].
      rewrite !lookup_insert_ne by done. exact Hb. }
    cbn [fst snd db tables set_tables].
    by rewrite !lookup_insert_ne by done.
  - apply populateTempSchemaTable_ref_err in Hpop as ->.
    cbn [fst snd db tables set_tables].
    by rewrite !lookup_insert_ne by done.
  - unfold populateTempSchemaTable in Hpop. rewrite exec_unfold in Hpop.
    by destruct (run _ _).1.
Qed.

(** X13.  A backup table left from an earlier migration blocks the next
    one: when the detector reports the legacy format and a table already
    bears the backup name, [EnsureSchemaMigrationFormat] does not succeed,
    and both the canonical table and that backup table are left as they
    were. *)
Theorem leftover_backup_blocks_migration
    temp readDir newMigration s (w0 : World Database) Tb :
  temp ≠ "schema_migrations" → temp ≠ "schema_migrations_old_temp" →
  (isSchemaMigrationNeeded s w0).1 = Ok true →
  tables (db w0) !! here (db w0) (oldTempTable s) = Some Tb →
  (EnsureSchemaMigrationFormat temp readDir newMigration s w0).1 ≠ Ok tt
  ∧ tables (db (EnsureSchemaMigrationFormat temp readDir newMigration s w0).2)
      !! here (db w0) (canonicalTable s)
    = tables (db w0) !! here (db w0) (canonicalTable s)
  ∧ tables (db (EnsureSchemaMigrationFormat temp readDir newMigration s w0).2)
      !! here (db w0) (oldTempTable s) = Some Tb.
Proof. intros. by apply Ensure_backup_taken. Qed.

Lemma leftover_backup_blocks_migration_witness :
  let s := storeOf SqliteDBType in
  let d := {| kind := SqliteDBType; current_schema := "main";
              tables := {[ ("main", "fb_schema_migrations") := legacyTable 2 false;
                           ("main", "fb_schema_migrations_old_temp") := legacyTable 1 true ]} |} in
  (exampleEnsure [1; 2]%Z s (start d)).1 = Err (ErrDriver "table already exists")
  ∧ tables (db (exampleEnsure [1; 2]%Z s (start d)).2) !! ("main", "fb_schema_migrations")
    = Some (legacyTable 2 false).
Proof.
  intros s d.
  destruct (leftover_backup_blocks_migration exampleTempName
              (exampleReadDir (exampleFiles [1; 2]%Z)) (exampleNewMigration [1; 2]%Z)
              s (start d) (legacyTable 1 true)) as (_ & Hcanonical & _).
  - done.
  - done.
  - vm_compute. reflexivity.
  - vm_compute. reflexivity.
  - split; [vm_compute; reflexivity|].
    unfold exampleEnsure. etrans; [exact Hcanonical|]. vm_compute. reflexivity.
Defined.

(** X14.  Migration followed by cleanup.  After a successful call of
    [EnsureSchemaMigrationFormat] that found the legacy format, the cleanup
    returns no error, and the database then differs from the one before the
    migration in two places only: the canonical name holds the new table,
    and the temp name is free; the backup name is free again, as it was. *)
Theorem migration_then_cleanup
    temp readDir newMigration s (w0 w1 : World Database) key :
  temp ≠ "schema_migrations" → temp ≠ "schema_migrations_old_temp" →
  (isSchemaMigrationNeeded s w0).1 = Ok true →
  EnsureSchemaMigrationFormat temp readDir newMigration s w0 = (Ok tt, w1) →
  ∃ w2, deleteOldSchemaMigrationTable s w1 = (Ok tt, w2)
        ∧ tables (db w2) !! here (db w0) (canonicalTable s)
          = tables (db w1) !! here (db w0) (canonicalTable s)
        ∧ is_Some (tables (db w2) !! here (db w0) (canonicalTable s))
        ∧ tables (db w2) !! here (db w0) (tempTable temp s) = None
        ∧ tables (db w2) !! here (db w0) (oldTempTable s) = None
        ∧ (key ≠ here (db w0) (canonicalTable s) →
           key ≠ here (db w0) (tempTable temp s) →
           tables (db w2) !! key = tables (db w0) !! key).
Proof.
  intros Hn1 Hn2 Hneed Hrun.
  assert (tables (db w0) !! here (db w0) (oldTempTable s) = None) as Hfree.
  { destruct (tables (db w0) !! here (db w0) (oldTempTable s)) as [Tb|] eqn:Hb; [|done].
    destruct (Ensure_backup_taken temp readDir newMigration s w0 Tb Hn1 Hn2 Hneed Hb)
      as (Hno & _). by rewrite Hrun in Hno. }
  destruct (Ensure_migrated temp readDir newMigration Hn1 Hn2 s w0 w1 Hneed Hrun)
    as (V & ms & Told & T1 & _ & _ & _ & _ & _ & _ & Hcur & Hlook & _).
  assert (here (db w1) (oldTempTable s) = here (db w0) (oldTempTable s)) as Hhere
    by (unfold here; by rewrite Hcur).
  assert (here (db w0) (oldTempTable s) ≠ here (db w0) (canonicalTable s)) as Hoc
    by (intros [= ?]; by eapply canonical_ne_backup).
  assert (here (db w0) (oldTempTable s) ≠ here (db w0) (tempTable temp s)) as Hot
    by (intros [= ?]; by eapply backup_ne_temp).
  assert (here (db w0) (tempTable temp s) ≠ here (db w0) (canonicalTable s)) as Htc
    by (intros [= ?]; by eapply canonical_ne_temp).
  rewrite deleteOldSchemaMigrationTable_ref. eexists. split; [done|].
  cbn [db tables set_tables]. rewrite Hhere.
  split; [by rewrite lookup_delete_ne|].
  split; [rewrite lookup_delete_ne, Hlook, decide_True by done; by eexists|].
  split; [rewrite lookup_delete_ne, Hlook by done; by rewrite decide_False, decide_False, decide_True|].
  split; [by rewrite lookup_delete_eq|].
  intros Hkc Hkt. rewrite lookup_delete, Hlook.
  case_decide as Hko; [by subst key|].
  by rewrite !decide_False by done.
Qed.

Lemma migration_then_cleanup_witness :
  let s := storeOf SqliteDBType in
  let w1 := (exampleEnsure [1; 2; 3]%Z s (start sharedDatabase)).2 in
  (deleteOldSchemaMigrationTable s w1).1 = Ok tt
  ∧ fst <$> map_to_list (tables (db (deleteOldSchemaMigrationTable s w1).2))
    = [("main", "fb_schema_migrations"); ("main", "fb_blocks")].
Proof.
  intros s w1.
  destruct (migration_then_cleanup exampleTempName
              (exampleReadDir (exampleFiles [1; 2; 3]%Z)) (exampleNewMigration [1; 2; 3]%Z)
              s (start sharedDatabase) w1 ("main", "fb_blocks")) as (w2 & Hrun & _).
  - done.
  - done.
  - vm_compute. reflexivity.
  - vm_compute. reflexivity.
  - rewrite Hrun. split; [reflexivity|]. rewrite <-Hrun. vm_compute. reflexivity.
Defined.

(** X15.  The create step on the reference backend never fails and is
    idempotent.  A table that already bears the temp name is kept as it is,
    with its columns and rows; otherwise the temp name gets the empty table
    of columns Version and Name with primary key Version.  No other table
    changes. *)
Theorem createTempSchemaTable_keeps_existing_table temp s (w : World Database) key :
  ∃ w1 w2,
    createTempSchemaTable temp s w = (Ok tt, w1)
    ∧ createTempSchemaTable temp s w1 = (Ok tt, w2)
    ∧ db w2 = db w1
    ∧ tables (db w1) !! here (db w) (tempTable temp s)
      = Some (default freshTempTable (tables (db w) !! here (db w) (tempTable temp s)))
    ∧ (key ≠ here (db w) (tempTable temp s) → tables (db w1) !! key = tables (db w) !! key).
Proof.
  rewrite createTempSchemaTable_ref. eexists _, _. split; [done|].
  rewrite createTempSchemaTable_ref. split; [done|].
  cbn [db tables set_tables]. rewrite here_set_tables. cbn [tables set_tables].
  rewrite lookup_insert_eq. cbn [default from_option].
  split; [by rewrite insert_insert_eq|]. split; [done|].
  intros Hkey. by rewrite lookup_insert_ne.
Qed.

Lemma createTempSchemaTable_keeps_existing_table_witness :
  let s := storeOf MysqlDBType in
  let w := start staleRowDatabase in
  (createTempSchemaTable exampleTempName s w).1 = Ok tt
  ∧ db (createTempSchemaTable exampleTempName s w).2 = staleRowDatabase
  ∧ tables (db (createTempSchemaTable exampleTempName s w).2)
      !! ("boards", "fb_schema_migrations")
    = Some (legacyTable 1 false).
Proof.
  intros s w.
  destruct (createTempSchemaTable_keeps_existing_table exampleTempName s w
              ("boards", "fb_schema_migrations")) as (w1 & w2 & Hrun & _ & _ & _ & Hother).
  split; [by rewrite Hrun|].
  split; [vm_compute; reflexivity|].
  rewrite Hrun. cbn [snd]. rewrite Hother by discriminate. vm_compute. reflexivity.
Defined.

(** X16.  [getLegacySchemaVersion] reads the version of the first row of
    the canonical table and no other row.  A version from 0 to 2^32 - 1 is
    returned; any other integer is a scan error, since the destination is a
    [uint32].  The database is not changed. *)
Theorem getLegacySchemaVersion_reads_first_row s (w : World Database) T i r rest v :
  tables (db w) !! here (db w) (canonicalTable s) = Some T →
  index_of "version" (colnames T) = Some i →
  rows T = r :: rest →
  r !! i = Some (VInt v) →
  getLegacySchemaVersion s w
  = (if bool_decide (0 ≤ v < 2 ^ 32)%Z then Ok v else Err (ErrScan "value out of range"),
     mkWorld (db w) (log w ++ [SelectFrom "version" (canonicalTable s)])).
Proof.
  intros HT Hi Hrows Hr. unfold getLegacySchemaVersion. rewrite queryRowScan_unfold.
  simpl. rewrite HT, Hi, Hrows. simpl. rewrite Hr. simpl. unfold in_range.
  destruct (_ && _) eqn:Hrange.
  - rewrite bool_decide_eq_true_2; [done|].
    apply andb_prop in Hrange as [?%Z.leb_le ?%Z.ltb_lt]. done.
  - rewrite bool_decide_eq_false_2; [done|].
    intros [?%Z.leb_le ?%Z.ltb_lt]. apply andb_false_iff in Hrange as [?|?]; congruence.
Qed.

Lemma getLegacySchemaVersion_reads_first_row_witness :
  let s := storeOf MysqlDBType in
  let table (v : Z) :=
    {| columns := legacyColumns; pkey := None;
       rows := [[VInt v; VBool false]; [VInt 9; VBool true]] |} in
  let d (v : Z) := {| kind := MysqlDBType; current_schema := "boards";
                      tables := {[ ("boards", "fb_schema_migrations") := table v ]} |} in
  (getLegacySchemaVersion s (start (d 7%Z))).1 = Ok 7%Z
  ∧ (getLegacySchemaVersion s (start (d (2 ^ 32)%Z))).1 = Err (ErrScan "value out of range")
  ∧ (getLegacySchemaVersion s (start (d (-1)%Z))).1 = Err (ErrScan "value out of range").
Proof.
  intros s table d.
  assert (∀ v, (getLegacySchemaVersion s (start (d v))).1
               = if bool_decide (0 ≤ v < 2 ^ 32)%Z then Ok v
                 else Err (ErrScan "value out of range")) as H.
  { intros v.
    rewrite (getLegacySchemaVersion_reads_first_row s (start (d v)) (table v) 0
               [VInt v; VBool false] [[VInt 9; VBool true]] v); [done|..].
    - apply lookup_singleton_eq.
    - reflexivity.
    - reflexivity.
    - reflexivity. }
  rewrite !H. split; [|split]; vm_compute; reflexivity.
Defined.

(** ** The dialog component's handlers *)

Lemma dialogRun_snoc events e st :
  dialogRun (events ++ [e]) st = dialogStep (dialogRun events st) e.
Proof. unfold dialogRun. by rewrite fold_left_app. Qed.

Lemma dialog_pending_press post st :
  isBackdropClickedRef st = false → Click ∉ post →
  isBackdropClickedRef (dialogRun post st) = bool_decide (MouseDown true ∈ post).
Proof.
  induction post as [|e post IH] using rev_ind; intros Hst Hpost.
  - by rewrite bool_decide_eq_false_2 by apply not_elem_of_nil.
  - rewrite dialogRun_snoc.
    apply not_elem_of_app in Hpost as [Hpost He].
    specialize (IH Hst Hpost).
    destruct e as [[|]| | |]; simpl.
    + by rewrite bool_decide_eq_true_2 by (apply elem_of_app; right; by left).
    + rewrite IH. apply bool_decide_ext. rewrite elem_of_app, list_elem_of_singleton.
      split; [by left|]. by intros [?|?].
    + destruct He. by left.
    + rewrite IH. apply bool_decide_ext. rewrite elem_of_app, list_elem_of_singleton.
      split; [by left|]. by intros [?|?].
    + rewrite IH. apply bool_decide_ext. rewrite elem_of_app, list_elem_of_singleton.
      split; [by left|]. by intros [?|?].
Qed.

(** X17.  A click on the wrapper closes the dialog exactly when, since the
    previous click (or since the dialog was mounted), there has been a
    mouse-down whose target was the wrapper itself; mouse-downs inside the
    dialog and the [esc] key in between do not cancel it.  After the click
    nothing is pending. *)
Theorem click_closes_after_backdrop_press post st :
  isBackdropClickedRef st = false → Click ∉ post →
  onCloseCalls (dialogRun (post ++ [Click]) st)
  = onCloseCalls (dialogRun post st)
    + (if bool_decide (MouseDown true ∈ post) then 1 else 0)
  ∧ isBackdropClickedRef (dialogRun (post ++ [Click]) st) = false.
Proof.
  intros Hst Hpost. rewrite dialogRun_snoc.
  pose proof (dialog_pending_press post st Hst Hpost) as Hflag.
  simpl. unfold onClick. simpl. rewrite Hflag.
  destruct (bool_decide (MouseDown true ∈ post)); simpl; split; try done; lia.
Qed.

Lemma click_closes_after_backdrop_press_witness :
  onCloseCalls (dialogRun [MouseDown true; MouseDown false; Click] dialogInit) = 1
  ∧ onCloseCalls (dialogRun [MouseDown false; Click] dialogInit) = 0.
Proof.
  assert (Click ∉ [MouseDown true; MouseDown false]) as Hpost1
    by (rewrite !not_elem_of_cons; split_and!; [done..|apply not_elem_of_nil]).
  assert (Click ∉ [MouseDown false]) as Hpost2
    by (rewrite !not_elem_of_cons; split_and!; [done..|apply not_elem_of_nil]).
  split.
  - etrans; [exact (proj1 (click_closes_after_backdrop_press
                             [MouseDown true; MouseDown false] dialogInit eq_refl Hpost1))|].
    reflexivity.
  - etrans; [exact (proj1 (click_closes_after_backdrop_press
                             [MouseDown false] dialogInit eq_refl Hpost2))|].
    reflexivity.
Defined.

(** X18.  Over any sequence of handler runs, every run of the wrapper's
    [onClick] calls [stopPropagation] once, whether it closes or not, and
    the number of [onClose] calls made is at most the number of [esc]
    presses, plus the number of runs of the close button's handler, plus
    the number of mouse-downs on the wrapper itself: one press of the
    backdrop closes the dialog at most once. *)
Theorem dialog_closes_bounded_by_presses events st :
  stopPropagationCalls (dialogRun events st)
  = stopPropagationCalls st + length (filter (λ e, e = Click) events)
  ∧ (onCloseCalls (dialogRun events st)
       + (if isBackdropClickedRef (dialogRun events st) then 1 else 0)
     ≤ onCloseCalls st + (if isBackdropClickedRef st then 1 else 0)
       + length (filter (λ e, e = EscKey) events)
       + length (filter (λ e, e = CloseButton) events)
       + length (filter (λ e, e = MouseDown true) events))%nat.
Proof.
  revert st. induction events as [|e events IH]; intros st.
  - simpl. lia.
  - change (dialogRun (e :: events) st) with (dialogRun events (dialogStep st e)).
    destruct (IH (dialogStep st e)) as [Hstop Hclose].
    rewrite !filter_cons.
    destruct e as [[|]| | |]; simpl in *;
      unfold onClick in *; simpl in *;
      destruct (isBackdropClickedRef st); simpl in *; split; lia.
Qed.

(** Pressing the backdrop and then clicking the close button closes twice:
    once by the button, once by the wrapper's handler the click bubbles to. *)
Lemma dialog_closes_bounded_by_presses_witness :
  let after := dialogRun (MouseDown true :: closeButtonClick) dialogInit in
  onCloseCalls after = 2 ∧ stopPropagationCalls after = 1
  ∧ isBackdropClickedRef after = false.
Proof.
  intros after.
  destruct (dialog_closes_bounded_by_presses (MouseDown true :: closeButtonClick) dialogInit)
    as [Hstop Hbound].
  fold after in Hstop, Hbound.
  split; [|split; [exact Hstop|reflexivity]].
  apply Nat.le_antisymm.
  - etrans; [|exact Hbound]. apply Nat.le_add_r.
  - vm_compute. lia.
Defined.
